(** * GetUserLocation: a model of components/GetUserLocation.tsx

    The component keeps five pieces of React state ([position], [error],
    [loading], [watching], [permissionState]) and one ref ([watchIdRef]).
    Its handlers talk to the browser: the Geolocation API, the Permissions
    API, the clipboard and [window.open].

    The development has three parts.
    - [JSNumber]: JavaScript numbers (IEEE 754 binary64) and the string a
      template literal produces for them (ECMA-262, Number::toString).
    - [Widget]: the component's state, the part of the browser it touches,
      every function of the source as an action over both, the view, and
      the events that can reach a mounted component (clicks on the rendered
      buttons, geolocation callbacks, promise settlements, permission
      changes, unmount) with the states they lead to.
    - Properties: an invariant of the reachable states, and the behaviour
      of each handler. *)

From Stdlib Require Import ZArith Ascii String List Bool Lia.
From Stdlib Require Import SpecFloat DecimalString.
From stdpp Require Import base gmap.
Import ListNotations.

Local Open Scope Z_scope.

(** ** JavaScript numbers *)

Module JSNumber.

(** A [number] is a binary64 value: a signed zero, an infinity, NaN, or
    [(-1)^s * m * 2^e]. *)
Definition number : Type := spec_float.

Definition prec : Z := 53.
Definition emax : Z := 1024.

(** The Number value for the rational [num / den]: round to nearest, ties
    to even. *)
Definition F_ratio (num den : positive) : number :=
  SFdiv prec emax (S754_finite false num 0) (S754_finite false den 0).

Definition pow10 (j : Z) : positive := Z.to_pos (10 ^ j).

(** The Number value for [s * 10^j]. *)
Definition F_scaled (s : positive) (j : Z) : number :=
  if 0 <=? j then F_ratio (s * pow10 j) 1 else F_ratio s (pow10 (- j)).

(** The value of a decimal literal such as [37.7749] (digits [377749],
    exponent [-4]) or [-122.4194]. *)
Definition of_decimal (neg : bool) (digits : positive) (exp10 : Z) : number :=
  let x := F_scaled digits exp10 in
  if neg then SFopp x else x.

(** A finite value is put in the binary64 format before it is printed. *)
Definition canonical (x : number) : number :=
  match x with
  | S754_finite s m e =>
      let y := binary_normalize prec emax (Zpos m) e false in
      if s then SFopp y else y
  | _ => x
  end.

(** Step 5 of Number::toString for a positive finite [m * 2^e]: integers
    [n], [k], [s] with [k >= 1], [10^(k-1) <= s < 10^k], the Number value of
    [s * 10^(n-k)] equal to the input, and [k] as small as possible; among
    several [s] the one closest to the input, the even one on a tie. *)
Section Digits.
Variables (m : positive) (e : Z).

(** [m * 2^e] as the fraction [A / B]. *)
Let A : Z := Zpos m * 2 ^ Z.max e 0.
Let B : Z := 2 ^ Z.max (- e) 0.

Definition below_pow10 (n : Z) : bool :=
  if 0 <=? n then A <? B * 10 ^ n else A * 10 ^ (- n) <? B.

(** The least [n] from the start value on with [A / B < 10^n]. *)
Fixpoint magnitude (fuel : nat) (n : Z) : Z :=
  match fuel with
  | O => n
  | S fuel' => if below_pow10 n then n else magnitude fuel' (n + 1)
  end.

(** [(A / B) / 10^j] as a fraction. *)
Definition scaled (j : Z) : Z * Z :=
  if 0 <=? j then (A, B * 10 ^ j) else (A * 10 ^ (- j), B).

Definition represents (s j : Z) : bool :=
  match s with
  | Zpos p => SFeqb (F_scaled p j) (S754_finite false m e)
  | _ => false
  end.

(** The [k]-digit candidates are the two integers around
    [(A / B) / 10^(n-k)]; rounding up to [10^k] is the digit 1 one decade
    higher. *)
Definition candidate (n k : Z) : option (Z * Z * Z) :=
  let j := n - k in
  let '(num, den) := scaled j in
  let lo := num / den in
  let r := num mod den in
  let hi := lo + 1 in
  let pick s := if s =? 10 ^ k then (1, 1, n + 1) else (s, k, n) in
  let hi_first :=
    match 2 * r ?= den with
    | Gt => true
    | Eq => Z.odd lo
    | Lt => false
    end in
  let first := if hi_first then hi else lo in
  let second := if hi_first then lo else hi in
  if represents first j then Some (pick first)
  else if represents second j then Some (pick second)
  else None.

Fixpoint shortest (fuel : nat) (n k : Z) : Z * Z * Z :=
  match fuel with
  | O => (fst (scaled (n - k)) / snd (scaled (n - k)), k, n)
  | S fuel' =>
      match candidate n k with
      | Some r => r
      | None => shortest fuel' n (k + 1)
      end
  end.

(** Seventeen digits identify every binary64 value and its magnitude lies
    between [10^-324] and [10^309], so neither search runs out of fuel on
    a value of the format. *)
Definition decimal_repr : Z * Z * Z :=
  shortest 17 (magnitude 640 (-330)) 1.
End Digits.

Local Open Scope string_scope.

Definition digits_of (s : Z) : string :=
  NilZero.string_of_uint (N.to_uint (Z.to_N s)).

Fixpoint zeros (n : nat) : string :=
  match n with
  | O => EmptyString
  | S n' => String "0"%char (zeros n')
  end.

(** Steps 6 to 11 of Number::toString: positional notation when
    [-5 <= n <= 21], exponent notation otherwise. *)
Definition format (s k n : Z) : string :=
  let ds := digits_of s in
  if ((-5 <=? n) && (n <=? 21))%Z then
    if (k <=? n)%Z then ds ++ zeros (Z.to_nat (n - k))
    else if (0 <? n)%Z then
      substring 0 (Z.to_nat n) ds ++ "."
        ++ substring (Z.to_nat n) (Z.to_nat (k - n)) ds
    else "0." ++ zeros (Z.to_nat (- n)) ++ ds
  else
    let exponentSign := if (n <? 0)%Z then "-" else "+" in
    let ex := digits_of (Z.abs (n - 1)) in
    if (k =? 1)%Z then ds ++ "e" ++ exponentSign ++ ex
    else substring 0 1 ds ++ "." ++ substring 1 (Z.to_nat (k - 1)) ds
           ++ "e" ++ exponentSign ++ ex.

(** [`${x}`] and [String(x)] for a number [x]. *)
Definition toString (x : number) : string :=
  match canonical x with
  | S754_nan => "NaN"
  | S754_zero _ => "0"
  | S754_infinity s => if s then "-Infinity" else "Infinity"
  | S754_finite sg m e =>
      let '(s, k, n) := decimal_repr m e in
      (if sg then "-" else "") ++ format s k n
  end.

End JSNumber.

(** ** The component and the browser it runs in *)

Module Widget.
Import JSNumber.

Local Open Scope string_scope.

(** *** DOM values handed to the callbacks *)

Record GeolocationCoordinates := {
  coords_latitude : number;
  coords_longitude : number;
  coords_accuracy : number;
  coords_altitude : option number;
  coords_altitudeAccuracy : option number;
  coords_heading : option number;
  coords_speed : option number;
}.

Record GeolocationPosition := {
  coords : GeolocationCoordinates;
  pos_timestamp : number;
}.

(** [err_message] is [None] where the environment exposes no message;
    [err_string] is what [String(err)] evaluates to. *)
Record GeolocationPositionError := {
  err_code : Z;
  err_message : option string;
  err_string : string;
}.

Inductive PermissionState := granted | denied | prompt.

(** [permStatus.state] as text, for the view. *)
Definition PermissionState_text (s : PermissionState) : string :=
  match s with
  | granted => "granted"
  | denied => "denied"
  | prompt => "prompt"
  end.

Record PositionOptions := {
  enableHighAccuracy : bool;
  timeout : Z;
  maximumAge : Z;
}.

(** *** Types and constants of the source *)

Record PositionState := {
  latitude : number;
  longitude : number;
  accuracy : number;
  altitude : option number;
  altitudeAccuracy : option number;
  heading : option number;
  speed : option number;
  timestamp : number;
}.

Definition PermissionStateType : Type := option PermissionState.

Definition geoOptions : PositionOptions :=
  {| enableHighAccuracy := true; timeout := 10000; maximumAge := 0 |}.

(** *** What the page offers

    The guards of the source test [typeof window], ["permissions" in
    navigator], ["geolocation" in navigator], [navigator.clipboard] and the
    optional [addEventListener]/[removeEventListener] of the permission
    status. A page does not gain or lose these while the component lives. *)
Record Env := {
  window_defined : bool;
  navigator_permissions : bool;
  navigator_geolocation : bool;
  navigator_clipboard : bool;
  status_listeners : bool;
}.

(** *** State owned by the component *)

(** The variables [mounted] and [permStatus] closed over by the
    permissions effect. [permStatus] refers to the one geolocation
    permission status of the page, or is null. *)
Record Effect := {
  mounted : bool;
  permStatus : bool;
}.

Record Component := {
  position : option PositionState;
  error : option string;
  loading : bool;
  watching : bool;
  permissionState : PermissionStateType;
  watchIdRef : option Z;
  (** [None] when the effect returned before declaring its variables. *)
  effect : option Effect;
}.

(** *** State owned by the browser and by React *)

Record Host := {
  (** React still has the component in the tree. *)
  in_tree : bool;
  (** Live [watchPosition] subscriptions, by watch id. *)
  watches : gmap Z PositionOptions;
  next_watch_id : Z;
  (** [getCurrentPosition] requests whose callback has not run yet. *)
  requests : list PositionOptions;
  (** Arguments of the [navigator.clipboard.writeText] calls so far. *)
  writeText_calls : list string;
  (** Texts of the [writeText] promises that have not settled yet. *)
  writeText_pending : list string;
  (** Texts copied through the textarea fallback. *)
  execCommand_copies : list string;
  (** Arguments of the [window.open] calls so far. *)
  window_open_calls : list (string * string * string);
  (** Arguments of the [console.error] calls so far. *)
  console_errors : list GeolocationPositionError;
  (** The page's geolocation permission, whether the query is still
      running, and whether [handleChange] listens for changes. *)
  permission : PermissionState;
  query_pending : bool;
  change_listener : bool;
}.

Record World := {
  component : Component;
  host : Host;
}.

(** *** Actions: functions of the source read and write the world *)

Definition Action (A : Type) : Type := World -> A * World.

Definition ret {A} (a : A) : Action A := fun w => (a, w).

Definition bind {A B} (c : Action A) (k : A -> Action B) : Action B :=
  fun w => let '(a, w') := c w in k a w'.

Definition exec {A} (c : Action A) (w : World) : World := snd (c w).

Declare Scope action_scope.
Delimit Scope action_scope with action.
Bind Scope action_scope with Action.

Notation "x <- c ; k" := (bind c (fun x => k))
  (at level 20, c at level 100, k at level 200, only parsing) : action_scope.
Notation "c ;; k" := (bind c (fun _ => k))
  (at level 100, k at level 200, only parsing, right associativity) : action_scope.

Local Open Scope action_scope.

Definition read {A} (f : Component -> A) : Action A :=
  fun w => (f (component w), w).

Definition on_component (f : Component -> Component) : Action unit :=
  fun w => (tt, {| component := f (component w); host := host w |}).

Definition on_host (f : Host -> Host) : Action unit :=
  fun w => (tt, {| component := component w; host := f (host w) |}).

Definition skip : Action unit := ret tt.

(** The state setters and the ref assignment. *)

Definition setPosition (v : option PositionState) : Action unit :=
  on_component (fun c =>
    {| position := v; error := error c; loading := loading c;
       watching := watching c; permissionState := permissionState c;
       watchIdRef := watchIdRef c; effect := effect c |}).

Definition setError (v : option string) : Action unit :=
  on_component (fun c =>
    {| position := position c; error := v; loading := loading c;
       watching := watching c; permissionState := permissionState c;
       watchIdRef := watchIdRef c; effect := effect c |}).

Definition setLoading (v : bool) : Action unit :=
  on_component (fun c =>
    {| position := position c; error := error c; loading := v;
       watching := watching c; permissionState := permissionState c;
       watchIdRef := watchIdRef c; effect := effect c |}).

Definition setWatching (v : bool) : Action unit :=
  on_component (fun c =>
    {| position := position c; error := error c; loading := loading c;
       watching := v; permissionState := permissionState c;
       watchIdRef := watchIdRef c; effect := effect c |}).

Definition setPermissionState (v : PermissionStateType) : Action unit :=
  on_component (fun c =>
    {| position := position c; error := error c; loading := loading c;
       watching := watching c; permissionState := v;
       watchIdRef := watchIdRef c; effect := effect c |}).

Definition set_watchIdRef (v : option Z) : Action unit :=
  on_component (fun c =>
    {| position := position c; error := error c; loading := loading c;
       watching := watching c; permissionState := permissionState c;
       watchIdRef := v; effect := effect c |}).

Definition set_effect (v : option Effect) : Action unit :=
  on_component (fun c =>
    {| position := position c; error := error c; loading := loading c;
       watching := watching c; permissionState := permissionState c;
       watchIdRef := watchIdRef c; effect := v |}).

(** *** Browser calls *)

Definition read_host {A} (f : Host -> A) : Action A :=
  fun w => (f (host w), w).

Definition set_watches (ws : gmap Z PositionOptions) (h : Host) : Host :=
  {| in_tree := in_tree h; watches := ws; next_watch_id := next_watch_id h;
     requests := requests h; writeText_calls := writeText_calls h;
     writeText_pending := writeText_pending h;
     execCommand_copies := execCommand_copies h;
     window_open_calls := window_open_calls h;
     console_errors := console_errors h; permission := permission h;
     query_pending := query_pending h; change_listener := change_listener h |}.

Definition set_next_watch_id (id : Z) (h : Host) : Host :=
  {| in_tree := in_tree h; watches := watches h; next_watch_id := id;
     requests := requests h; writeText_calls := writeText_calls h;
     writeText_pending := writeText_pending h;
     execCommand_copies := execCommand_copies h;
     window_open_calls := window_open_calls h;
     console_errors := console_errors h; permission := permission h;
     query_pending := query_pending h; change_listener := change_listener h |}.

(** [navigator.geolocation.watchPosition(handleSuccess, handleError, o)]:
    registers the subscription under an id not handed out before and
    returns the id. *)
Definition watchPosition (o : PositionOptions) : Action Z :=
  id <- read_host next_watch_id;
  on_host (fun h =>
    set_next_watch_id (id + 1) (set_watches (<[id := o]> (watches h)) h)) ;;
  ret id.

(** [navigator.geolocation.clearWatch(id)]. *)
Definition clearWatch (id : Z) : Action unit :=
  on_host (fun h => set_watches (delete id (watches h)) h).

Definition set_requests (rs : list PositionOptions) (h : Host) : Host :=
  {| in_tree := in_tree h; watches := watches h;
     next_watch_id := next_watch_id h;
     requests := rs; writeText_calls := writeText_calls h;
     writeText_pending := writeText_pending h;
     execCommand_copies := execCommand_copies h;
     window_open_calls := window_open_calls h;
     console_errors := console_errors h; permission := permission h;
     query_pending := query_pending h; change_listener := change_listener h |}.

(** [navigator.geolocation.getCurrentPosition(handleSuccess, handleError, o)]. *)
Definition getCurrentPosition (o : PositionOptions) : Action unit :=
  on_host (fun h => set_requests (requests h ++ [o]) h).

Definition set_writeText (calls pending : list string) (h : Host) : Host :=
  {| in_tree := in_tree h; watches := watches h;
     next_watch_id := next_watch_id h;
     requests := requests h; writeText_calls := calls;
     writeText_pending := pending;
     execCommand_copies := execCommand_copies h;
     window_open_calls := window_open_calls h;
     console_errors := console_errors h; permission := permission h;
     query_pending := query_pending h; change_listener := change_listener h |}.

(** [navigator.clipboard.writeText(text)]: the call is made and its promise
    is pending. *)
Definition writeText (text : string) : Action unit :=
  on_host (fun h =>
    set_writeText (writeText_calls h ++ [text]) (writeText_pending h ++ [text]) h).

Definition set_execCommand_copies (l : list string) (h : Host) : Host :=
  {| in_tree := in_tree h; watches := watches h;
     next_watch_id := next_watch_id h;
     requests := requests h; writeText_calls := writeText_calls h;
     writeText_pending := writeText_pending h;
     execCommand_copies := l;
     window_open_calls := window_open_calls h;
     console_errors := console_errors h; permission := permission h;
     query_pending := query_pending h; change_listener := change_listener h |}.

(** The [catch] branch of [copyToClipboard]: a textarea holding [text] is
    appended, selected, copied with [document.execCommand("copy")] and
    removed. *)
Definition textarea_copy (text : string) : Action unit :=
  on_host (fun h => set_execCommand_copies (execCommand_copies h ++ [text]) h).

Definition set_window_open_calls (l : list (string * string * string)) (h : Host) : Host :=
  {| in_tree := in_tree h; watches := watches h;
     next_watch_id := next_watch_id h;
     requests := requests h; writeText_calls := writeText_calls h;
     writeText_pending := writeText_pending h;
     execCommand_copies := execCommand_copies h;
     window_open_calls := l;
     console_errors := console_errors h; permission := permission h;
     query_pending := query_pending h; change_listener := change_listener h |}.

(** [window.open(url, target, features)]. *)
Definition window_open (url target features : string) : Action unit :=
  on_host (fun h =>
    set_window_open_calls (window_open_calls h ++ [(url, target, features)]) h).

Definition set_console_errors (l : list GeolocationPositionError) (h : Host) : Host :=
  {| in_tree := in_tree h; watches := watches h;
     next_watch_id := next_watch_id h;
     requests := requests h; writeText_calls := writeText_calls h;
     writeText_pending := writeText_pending h;
     execCommand_copies := execCommand_copies h;
     window_open_calls := window_open_calls h;
     console_errors := l; permission := permission h;
     query_pending := query_pending h; change_listener := change_listener h |}.

(** [console.error("Geolocation error:", err)]. *)
Definition console_error (err : GeolocationPositionError) : Action unit :=
  on_host (fun h => set_console_errors (console_errors h ++ [err]) h).

Definition set_permissions (p : PermissionState) (pending listener : bool) (h : Host) : Host :=
  {| in_tree := in_tree h; watches := watches h;
     next_watch_id := next_watch_id h;
     requests := requests h; writeText_calls := writeText_calls h;
     writeText_pending := writeText_pending h;
     execCommand_copies := execCommand_copies h;
     window_open_calls := window_open_calls h;
     console_errors := console_errors h; permission := p;
     query_pending := pending; change_listener := listener |}.

Definition set_in_tree (b : bool) (h : Host) : Host :=
  {| in_tree := b; watches := watches h;
     next_watch_id := next_watch_id h;
     requests := requests h; writeText_calls := writeText_calls h;
     writeText_pending := writeText_pending h;
     execCommand_copies := execCommand_copies h;
     window_open_calls := window_open_calls h;
     console_errors := console_errors h; permission := permission h;
     query_pending := query_pending h; change_listener := change_listener h |}.

(** [navigator.permissions.query({ name: "geolocation" })]. *)
Definition permissions_query : Action unit :=
  on_host (fun h => set_permissions (permission h) true (change_listener h) h).

(** [a || b] on strings: [a] unless it is undefined or empty. *)
Definition or_else (a : option string) (b : string) : string :=
  match a with
  | Some (String c s) => String c s
  | Some EmptyString => b
  | None => b
  end.

(** *** The functions of the component *)

Section Handlers.

Variable env : Env.

(** The guard shared by [getOneShot] and [startWatching]:
    [typeof window === "undefined" || !("geolocation" in navigator) ||
    !navigator.geolocation]. *)
Definition geolocation_missing : bool :=
  negb (window_defined env) || negb (navigator_geolocation env).

Definition handleSuccess (pos : GeolocationPosition) : Action unit :=
  let coords := coords pos in
  setPosition (Some
    {| latitude := coords_latitude coords;
       longitude := coords_longitude coords;
       accuracy := coords_accuracy coords;
       altitude := coords_altitude coords;
       altitudeAccuracy := coords_altitudeAccuracy coords;
       heading := coords_heading coords;
       speed := coords_speed coords;
       timestamp := pos_timestamp pos |}) ;;
  setError None ;;
  setLoading false.

Definition handleError (err : GeolocationPositionError) : Action unit :=
  console_error err ;;
  setError (Some (or_else (err_message err) (err_string err))) ;;
  setLoading false.

Definition getOneShot : Action unit :=
  if geolocation_missing then
    setError (Some "Geolocation is not supported by your browser.")
  else
    setLoading true ;;
    getCurrentPosition geoOptions.

Definition startWatching : Action unit :=
  if geolocation_missing then
    setError (Some "Geolocation is not supported by your browser.")
  else
    setError None ;;
    setWatching true ;;
    id <- watchPosition geoOptions;
    set_watchIdRef (Some id).

Definition stopWatching : Action unit :=
  current <- read watchIdRef;
  (if window_defined env && navigator_geolocation env then
     match current with
     | Some id => clearWatch id ;; set_watchIdRef None
     | None => skip
     end
   else skip) ;;
  setWatching false.

(** The local [text] of [copyToClipboard]. *)
Definition clipboard_text (p : PositionState) : string :=
  toString (latitude p) ++ ", " ++ toString (longitude p).

Definition copyToClipboard : Action unit :=
  held <- read position;
  match held with
  | None => skip
  | Some p =>
      let text := clipboard_text p in
      if negb (window_defined env) then skip
      else if navigator_clipboard env then writeText text
      else skip
  end.

(** The local [url] of [openInMaps]. *)
Definition maps_url (p : PositionState) : string :=
  "https://www.google.com/maps?q=" ++ toString (latitude p) ++ ","
    ++ toString (longitude p).

Definition openInMaps : Action unit :=
  held <- read position;
  match held with
  | None => skip
  | Some p =>
      if negb (window_defined env) then skip
      else window_open (maps_url p) "_blank" "noopener,noreferrer"
  end.

(** The permissions effect: its body, the [then] callback of the query,
    [handleChange], and the cleanup it returns. *)

Definition permissions_effect : Action unit :=
  if negb (window_defined env) || negb (navigator_permissions env) then skip
  else
    set_effect (Some {| mounted := true; permStatus := false |}) ;;
    permissions_query.

Definition query_then : Action unit :=
  e <- read effect;
  match e with
  | None => skip
  | Some e =>
      if negb (mounted e) then skip
      else
        set_effect (Some {| mounted := mounted e; permStatus := true |}) ;;
        state <- read_host permission;
        setPermissionState (Some state) ;;
        if status_listeners env then
          on_host (fun h => set_permissions (permission h) (query_pending h) true h)
        else skip
  end.

Definition handleChange : Action unit :=
  e <- read effect;
  match e with
  | None => skip
  | Some e =>
      if negb (mounted e) || negb (permStatus e) then skip
      else
        state <- read_host permission;
        setPermissionState (Some state)
  end.

Definition effect_cleanup : Action unit :=
  e <- read effect;
  match e with
  | None => skip
  | Some e =>
      set_effect (Some {| mounted := false; permStatus := permStatus e |}) ;;
      if permStatus e && status_listeners env then
        on_host (fun h => set_permissions (permission h) (query_pending h) false h)
      else skip
  end.

(** *** The view *)

Inductive Handler :=
  | OnGetOneShot
  | OnStartWatching
  | OnStopWatching
  | OnCopyToClipboard
  | OnOpenInMaps.

Definition Handler_eqb (a b : Handler) : bool :=
  match a, b with
  | OnGetOneShot, OnGetOneShot
  | OnStartWatching, OnStartWatching
  | OnStopWatching, OnStopWatching
  | OnCopyToClipboard, OnCopyToClipboard
  | OnOpenInMaps, OnOpenInMaps => true
  | _, _ => false
  end.

Record Button := {
  label : string;
  onClick : Handler;
  disabled : bool;
}.

(** Text in the position panel: a string, or the timestamp as
    [new Date(t).toLocaleString(undefined, ...)] prints it, which depends on
    the locale of the page. *)
Inductive PanelText :=
  | Str (s : string)
  | LocaleDate (t : number).

Record Row := {
  caption : string;
  value : PanelText;
}.

Record View := {
  buttons : list Button;
  permission_line : string;
  error_line : option string;
  panel : option (list Row);
}.

Definition optional_row (caption : string) (v : option number) : list Row :=
  match v with
  | Some x => [{| caption := caption; value := Str (toString x) |}]
  | None => []
  end.

Definition position_rows (p : PositionState) : list Row :=
  [ {| caption := "Latitude: "; value := Str (toString (latitude p)) |};
    {| caption := "Longitude: "; value := Str (toString (longitude p)) |};
    {| caption := "Accuracy: ";
       value := Str (toString (accuracy p) ++ " meters") |} ]
  ++ optional_row "Altitude: " (altitude p)
  ++ optional_row "Heading: " (heading p)
  ++ optional_row "Speed: " (speed p)
  ++ [ {| caption := "Timestamp: "; value := LocaleDate (timestamp p) |} ].

Definition render (c : Component) : View :=
  {| buttons :=
       [ {| label := if loading c then "Fetching…" else "Get current position";
            onClick := OnGetOneShot;
            disabled := loading c |};
         (if negb (watching c) then
            {| label := "Start tracking"; onClick := OnStartWatching;
               disabled := false |}
          else
            {| label := "Stop tracking"; onClick := OnStopWatching;
               disabled := false |});
         {| label := "Copy coords"; onClick := OnCopyToClipboard;
            disabled := match position c with Some _ => false | None => true end |};
         {| label := "Open in Maps"; onClick := OnOpenInMaps;
            disabled := match position c with Some _ => false | None => true end |} ];
     permission_line :=
       match permissionState c with
       | Some s => PermissionState_text s
       | None => "(unknown)"
       end;
     error_line :=
       match error c with
       | Some (String a s) => Some ("Error: " ++ String a s)
       | _ => None
       end;
     panel :=
       match position c with
       | Some p => Some (position_rows p)
       | None => None
       end |}.

(** A button of the view that carries the handler and is not disabled. *)
Definition clickable (h : Handler) (v : View) : bool :=
  existsb (fun b => Handler_eqb (onClick b) h && negb (disabled b)) (buttons v).

Definition dispatch (h : Handler) : Action unit :=
  match h with
  | OnGetOneShot => getOneShot
  | OnStartWatching => startWatching
  | OnStopWatching => stopWatching
  | OnCopyToClipboard => copyToClipboard
  | OnOpenInMaps => openInMaps
  end.

(** *** Lifecycle: what can happen to a mounted component *)

Definition initial_component : Component :=
  {| position := None; error := None; loading := false; watching := false;
     permissionState := None; watchIdRef := None; effect := None |}.

Definition initial_host (p : PermissionState) : Host :=
  {| in_tree := true; watches := ∅; next_watch_id := 1; requests := [];
     writeText_calls := []; writeText_pending := [];
     execCommand_copies := []; window_open_calls := [];
     console_errors := []; permission := p;
     query_pending := false; change_listener := false |}.

(** The first render followed by the effect. *)
Definition mount (p : PermissionState) : World :=
  exec permissions_effect
    {| component := initial_component; host := initial_host p |}.

Inductive Event :=
  | Click (h : Handler)
  | CurrentPosition (pos : GeolocationPosition)
  | CurrentPositionError (err : GeolocationPositionError)
  | WatchUpdate (id : Z) (pos : GeolocationPosition)
  | WatchError (id : Z) (err : GeolocationPositionError) (ended : bool)
  | WriteTextFulfilled
  | WriteTextRejected
  | QueryFulfilled
  | QueryRejected
  | PermissionChange (p : PermissionState)
  | Unmount.

(** One event, or [None] when it cannot happen in [w]: a click needs a
    button of the current view, a geolocation callback an outstanding
    request or a live watch, a settlement a pending promise. A watch that
    reports a failure goes on, or is ended by the browser ([ended], as
    when permission is denied), which drops the subscription as
    [clearWatch] would. *)
Definition step (ev : Event) (w : World) : option World :=
  let h := host w in
  match ev with
  | Click a =>
      if in_tree h && clickable a (render (component w))
      then Some (exec (dispatch a) w) else None
  | CurrentPosition pos =>
      match requests h with
      | _ :: rest =>
          Some (exec (on_host (set_requests rest) ;; handleSuccess pos) w)
      | [] => None
      end
  | CurrentPositionError err =>
      match requests h with
      | _ :: rest =>
          Some (exec (on_host (set_requests rest) ;; handleError err) w)
      | [] => None
      end
  | WatchUpdate id pos =>
      match watches h !! id with
      | Some _ => Some (exec (handleSuccess pos) w)
      | None => None
      end
  | WatchError id err ended =>
      match watches h !! id with
      | Some _ =>
          Some (exec ((if ended then clearWatch id else skip) ;;
                      handleError err) w)
      | None => None
      end
  | WriteTextFulfilled =>
      match writeText_pending h with
      | _ :: rest =>
          Some (exec (on_host (fun h => set_writeText (writeText_calls h) rest h)) w)
      | [] => None
      end
  | WriteTextRejected =>
      match writeText_pending h with
      | text :: rest =>
          Some (exec (on_host (fun h => set_writeText (writeText_calls h) rest h) ;;
                      textarea_copy text) w)
      | [] => None
      end
  | QueryFulfilled =>
      if query_pending h then
        Some (exec (on_host (fun h => set_permissions (permission h) false (change_listener h) h) ;;
                    query_then) w)
      else None
  | QueryRejected =>
      if query_pending h then
        Some (exec (on_host (fun h => set_permissions (permission h) false (change_listener h) h)) w)
      else None
  | PermissionChange p =>
      Some (exec (on_host (fun h => set_permissions p (query_pending h) (change_listener h) h) ;;
                  if change_listener h then handleChange else skip) w)
  | Unmount =>
      if in_tree h then
        Some (exec (on_host (set_in_tree false) ;; effect_cleanup) w)
      else None
  end.

Fixpoint run (evs : list Event) (w : World) : option World :=
  match evs with
  | [] => Some w
  | ev :: rest =>
      match step ev w with
      | Some w' => run rest w'
      | None => None
      end
  end.

(** The states a component can be in. *)
Definition reachable (w : World) : Prop :=
  exists p evs, run evs (mount p) = Some w.

(** At most one subscription is live, and it is the one [watchIdRef]
    holds. *)
Definition one_session (w : World) : Prop :=
  dom (watches (host w)) ⊆
    match watchIdRef (component w) with
    | Some id => {[ id ]}
    | None => ∅
    end.

End Handlers.

(** *** Sample values *)

Definition san_francisco : GeolocationPosition :=
  {| coords :=
       {| coords_latitude := of_decimal false 377749 (-4);
          coords_longitude := of_decimal true 1224194 (-4);
          coords_accuracy := of_decimal false 25 0;
          coords_altitude := None;
          coords_altitudeAccuracy := None;
          coords_heading := None;
          coords_speed := None |};
     pos_timestamp := of_decimal false 1700000000000 0 |}.

Definition permission_denied : GeolocationPositionError :=
  {| err_code := 1;
     err_message := Some "User denied Geolocation";
     err_string := "[object GeolocationPositionError]" |}.

Definition position_unavailable : GeolocationPositionError :=
  {| err_code := 2;
     err_message := Some "";
     err_string := "[object GeolocationPositionError]" |}.

Definition browser : Env :=
  {| window_defined := true; navigator_permissions := true;
     navigator_geolocation := true; navigator_clipboard := true;
     status_listeners := true |}.

Definition no_geolocation : Env :=
  {| window_defined := true; navigator_permissions := true;
     navigator_geolocation := false; navigator_clipboard := true;
     status_listeners := true |}.

(** A running tracking session, a torn-down component whose watch is still
    live, and a component holding a position. *)

Definition tracking : World :=
  exec (startWatching browser) (mount browser prompt).

Definition holding : World :=
  exec (handleSuccess san_francisco) tracking.

(** *** Vocabulary of the statements *)


(** A text of the form [<latitude>, <longitude>]. *)
Definition coordinate_text (t : string) : Prop :=
  exists p : PositionState,
    t = toString (latitude p) ++ ", " ++ toString (longitude p).

(** What every reachable state satisfies. *)
Record invariant (env : Env) (w : World) : Prop := {
  inv_session : one_session w;
  inv_idle :
    watching (component w) = false -> watchIdRef (component w) = None;
  inv_active :
    watching (component w) = true -> is_Some (watchIdRef (component w));
  inv_missing :
    geolocation_missing env = true ->
    watchIdRef (component w) = None /\
    watching (component w) = false /\
    position (component w) = None /\
    requests (host w) = [];
  inv_texts :
    Forall coordinate_text
      (writeText_calls (host w) ++ writeText_pending (host w)
         ++ execCommand_copies (host w));
}.

(** *** Further vocabulary: requests, permissions, output *)

(** The failure an event hands to [handleError], if any. *)
Definition failure_of (ev : Event) : list GeolocationPositionError :=
  match ev with
  | CurrentPositionError err => [err]
  | WatchError _ err _ => [err]
  | _ => []
  end.

(** A [window.open] call as [openInMaps] makes it. *)
Definition maps_link (call : string * string * string) : Prop :=
  exists p : PositionState,
    call = (maps_url p, "_blank", "noopener,noreferrer").

(** Requests and subscriptions: a set [loading] flag has a request behind
    it, and every request and watch was made with [geoOptions]. *)
Record requests_invariant (w : World) : Prop := {
  req_loading :
    loading (component w) = true -> requests (host w) <> [];
  req_options : Forall (eq geoOptions) (requests (host w));
  req_watch_options :
    forall id o, watches (host w) !! id = Some o -> o = geoOptions;
}.

(** The permissions effect: without the API it never starts; until the
    query resolves nothing is known and nothing listens; [mounted] follows
    the component's presence in the tree; a registered listener keeps
    [permissionState] equal to the page's permission. *)
Record permission_invariant (env : Env) (w : World) : Prop := {
  perm_no_api :
    negb (window_defined env) || negb (navigator_permissions env) = true ->
    effect (component w) = None;
  perm_no_effect :
    effect (component w) = None ->
    permissionState (component w) = None /\
    query_pending (host w) = false /\
    change_listener (host w) = false;
  perm_not_yet :
    forall e, effect (component w) = Some e -> permStatus e = false ->
    permissionState (component w) = None /\
    change_listener (host w) = false;
  perm_pending :
    forall e, effect (component w) = Some e ->
    query_pending (host w) = true -> permStatus e = false;
  perm_mounted :
    forall e, effect (component w) = Some e ->
    mounted e = in_tree (host w);
  perm_listening :
    change_listener (host w) = true ->
    status_listeners env = true /\
    in_tree (host w) = true /\
    permissionState (component w) = Some (permission (host w));
}.

(** What the component hands to the outside: every opened window is a
    maps link, and every fallback copy or pending promise stems from a
    [writeText] call of its own. *)
Record output_invariant (w : World) : Prop := {
  out_windows : Forall maps_link (window_open_calls (host w));
  out_clipboard :
    (length (execCommand_copies (host w))
       + length (writeText_pending (host w))
     <= length (writeText_calls (host w)))%nat;
}.

(** A page without geolocation: nothing but the "not supported" message
    can ever show. *)
Record unsupported_invariant (w : World) : Prop := {
  uns_error :
    error (component w) = None \/
    error (component w) = Some "Geolocation is not supported by your browser.";
  uns_loading : loading (component w) = false;
  uns_console : console_errors (host w) = [];
  uns_clipboard :
    writeText_calls (host w) = [] /\ writeText_pending (host w) = [] /\
    execCommand_copies (host w) = [];
  uns_windows : window_open_calls (host w) = [];
}.

(** The permission is settled as unknown: nothing known, no query running,
    nothing listening. *)
Definition permission_unknown (w : World) : Prop :=
  permissionState (component w) = None /\
  query_pending (host w) = false /\
  change_listener (host w) = false.

(** A one-shot request is outstanding while a watch is live. *)
Definition requesting : World :=
  exec (getOneShot browser) tracking.

(** The state of a session on [browser] after the given events. *)
Definition after (evs : list Event) : World :=
  default (mount browser prompt) (run browser evs (mount browser prompt)).

(** A page with neither the Permissions API nor a clipboard. *)
Definition bare_browser : Env :=
  {| window_defined := true; navigator_permissions := false;
     navigator_geolocation := true; navigator_clipboard := false;
     status_listeners := false |}.

End Widget.

Import JSNumber Widget.
Local Open Scope string_scope.

(** ** Properties *)

Ltac open_world w :=
  let c := fresh "c" in
  let h := fresh "h" in
  destruct w as [c h]; destruct c, h.

Lemma clickable_start_idle c :
  clickable OnStartWatching (render c) = true -> watching c = false.
Proof.
  destruct c as [p e l wa ps r ef]; unfold clickable; simpl.
  destruct wa; simpl; [| reflexivity].
  destruct p; simpl; intros H; discriminate H.
Qed.

Lemma clickable_needs_position c :
  clickable OnCopyToClipboard (render c) = true \/
  clickable OnOpenInMaps (render c) = true ->
  position c <> None.
Proof.
  destruct c as [p e l wa ps r ef]; unfold clickable; simpl.
  destruct p; [intros _ H; discriminate H |].
  destruct wa; simpl; intros [H | H]; discriminate H.
Qed.

Lemma mount_invariant env p : invariant env (mount env p).
Proof.
  unfold mount, permissions_effect.
  destruct (negb (window_defined env) || negb (navigator_permissions env));
    (split; [apply empty_subseteq | reflexivity | intros H; discriminate H
            | intros _; repeat split | constructor]).
Qed.

Lemma coordinate_text_clipboard p : coordinate_text (clipboard_text p).
Proof. exists p. reflexivity. Qed.

Lemma geolocation_missing_negb env :
  geolocation_missing env =
  negb (window_defined env && navigator_geolocation env).
Proof.
  unfold geolocation_missing.
  destruct (window_defined env), (navigator_geolocation env); reflexivity.
Qed.

Section Texts.

Context {T : Type} (P : T -> Prop).

Lemma texts_after_write calls pending copies t :
  Forall P (calls ++ pending ++ copies) -> P t ->
  Forall P ((calls ++ [t]) ++ (pending ++ [t]) ++ copies).
Proof.
  intros H Ht.
  apply Forall_app in H as [H1 H]. apply Forall_app in H as [H2 H3].
  assert (Forall P [t]) by (constructor; [exact Ht | constructor]).
  repeat (apply Forall_app; split); assumption.
Qed.

Lemma texts_after_settle calls t pending copies :
  Forall P (calls ++ (t :: pending) ++ copies) ->
  Forall P (calls ++ pending ++ copies) /\
  Forall P (calls ++ pending ++ copies ++ [t]).
Proof.
  intros H.
  apply Forall_app in H as [H1 H]. apply Forall_app in H as [H2 H3].
  inversion H2 as [| ? ? Ht H2']; subst.
  assert (Forall P [t]) by (constructor; [exact Ht | constructor]).
  split; repeat (apply Forall_app; split); assumption.
Qed.

End Texts.

Lemma handler_invariant env a w :
  invariant env w ->
  clickable a (render (component w)) = true ->
  invariant env (exec (dispatch env a) w).
Proof.
  intros Hinv Hc. pose proof Hinv as [Hs Hi Ha Hm Ht].
  destruct a; simpl.
  - (* getOneShot *)
    unfold getOneShot. destruct (geolocation_missing env) eqn:Hg.
    + split; simpl; auto.
    + split; simpl; auto. congruence.
  - (* startWatching *)
    apply clickable_start_idle in Hc. specialize (Hi Hc).
    unfold startWatching. destruct (geolocation_missing env) eqn:Hg.
    + split; simpl; auto.
    + split; simpl; try congruence; auto.
      unfold one_session in *; simpl. rewrite Hi in Hs.
      rewrite dom_insert_L. apply union_least; [reflexivity |].
      etransitivity; [exact Hs | apply empty_subseteq].
  - (* stopWatching *)
    pose proof (geolocation_missing_negb env) as Hn.
    unfold stopWatching, exec, bind, read; simpl.
    destruct (window_defined env && navigator_geolocation env); simpl in Hn.
    + destruct (watchIdRef (component w)) as [id |] eqn:Hr.
      * split; simpl; auto; try congruence.
        unfold one_session in *; simpl. rewrite Hr in Hs.
        rewrite dom_delete_L. intros x Hx.
        apply elem_of_difference in Hx as [Hx Hne]. exfalso. auto.
      * split; simpl; auto; congruence.
    + destruct (Hm Hn) as (Hr & _ & Hp & Hq).
      split; simpl; auto. intros Hx; discriminate Hx.
  - (* copyToClipboard *)
    unfold copyToClipboard, exec, bind, read; simpl.
    destruct (position (component w)) as [p |]; simpl; [| exact Hinv].
    destruct (negb (window_defined env)); simpl; [exact Hinv |].
    destruct (navigator_clipboard env); simpl; [| exact Hinv].
    split; simpl; [exact Hs | exact Hi | exact Ha | exact (inv_missing _ _ Hinv) |].
    apply texts_after_write; [exact Ht | apply coordinate_text_clipboard].
  - (* openInMaps *)
    unfold openInMaps, exec, bind, read; simpl.
    destruct (position (component w)) as [p |]; simpl; [| exact Hinv].
    destruct (negb (window_defined env)); simpl; [exact Hinv |].
    split; simpl; [exact Hs | exact Hi | exact Ha | exact (inv_missing _ _ Hinv) | exact Ht].
Qed.

Ltac unchanged Hinv :=
  split; simpl;
  [ exact (inv_session _ _ Hinv) | exact (inv_idle _ _ Hinv)
  | exact (inv_active _ _ Hinv) | exact (inv_missing _ _ Hinv)
  | exact (inv_texts _ _ Hinv) ].

Lemma no_handle_no_watches w :
  one_session w -> watchIdRef (component w) = None -> watches (host w) = ∅.
Proof.
  unfold one_session. intros Hs Hr. rewrite Hr in Hs.
  apply dom_empty_iff_L. apply elem_of_equiv_empty_L. intros x Hx.
  apply Hs in Hx. exact (not_elem_of_empty x Hx).
Qed.

Lemma no_session_no_watch w id :
  one_session w -> watchIdRef (component w) = None ->
  watches (host w) !! id = None.
Proof.
  intros Hs Hr. rewrite (no_handle_no_watches _ Hs Hr). apply lookup_empty.
Qed.

Lemma step_invariant env ev w w' :
  invariant env w -> step env ev w = Some w' -> invariant env w'.
Proof.
  intros Hinv Hstep. pose proof Hinv as [Hs Hi Ha Hm Ht].
  destruct ev; simpl in Hstep.
  - (* Click *)
    destruct (in_tree (host w)); simpl in Hstep; [| discriminate Hstep].
    destruct (clickable h (render (component w))) eqn:Hc; [| discriminate Hstep].
    injection Hstep as <-. apply handler_invariant; assumption.
  - (* CurrentPosition *)
    destruct (requests (host w)) as [| o rest] eqn:Hq; [discriminate Hstep |].
    injection Hstep as <-.
    split; simpl; [exact Hs | exact Hi | exact Ha | | exact Ht].
    intros Hg. destruct (Hm Hg) as (_ & _ & _ & Hx). discriminate Hx.
  - (* CurrentPositionError *)
    destruct (requests (host w)) as [| o rest] eqn:Hq; [discriminate Hstep |].
    injection Hstep as <-.
    split; simpl; [exact Hs | exact Hi | exact Ha | | exact Ht].
    intros Hg. destruct (Hm Hg) as (_ & _ & _ & Hx). discriminate Hx.
  - (* WatchUpdate *)
    destruct (watches (host w) !! id) eqn:Hw; [| discriminate Hstep].
    injection Hstep as <-.
    split; simpl; [exact Hs | exact Hi | exact Ha | | exact Ht].
    intros Hg. destruct (Hm Hg) as (Hr & _).
    rewrite (no_session_no_watch _ _ Hs Hr) in Hw. discriminate Hw.
  - (* WatchError *)
    destruct (watches (host w) !! id) eqn:Hw; [| discriminate Hstep].
    injection Hstep as <-. destruct ended; [| unchanged Hinv].
    split; simpl; [| exact Hi | exact Ha | exact Hm | exact Ht].
    unfold one_session in *; simpl. rewrite dom_delete_L.
    etransitivity; [apply subseteq_difference_l; reflexivity | exact Hs].
  - (* WriteTextFulfilled *)
    destruct (writeText_pending (host w)) as [| t rest] eqn:Hp; [discriminate Hstep |].
    injection Hstep as <-.
    split; simpl; [exact Hs | exact Hi | exact Ha | exact Hm |].
    apply (texts_after_settle _ _ t). exact Ht.
  - (* WriteTextRejected *)
    destruct (writeText_pending (host w)) as [| t rest] eqn:Hp; [discriminate Hstep |].
    injection Hstep as <-.
    split; simpl; [exact Hs | exact Hi | exact Ha | exact Hm |].
    apply (texts_after_settle _ _ t). exact Ht.
  - (* QueryFulfilled *)
    destruct (query_pending (host w)); [| discriminate Hstep].
    injection Hstep as <-.
    unfold query_then, exec, bind, read; simpl.
    destruct (effect (component w)) as [e |]; simpl; [| unchanged Hinv].
    destruct (negb (mounted e)); simpl; [unchanged Hinv |].
    destruct (status_listeners env); unchanged Hinv.
  - (* QueryRejected *)
    destruct (query_pending (host w)); [| discriminate Hstep].
    injection Hstep as <-. unchanged Hinv.
  - (* PermissionChange *)
    injection Hstep as <-.
    unfold handleChange, exec, bind, read; simpl.
    destruct (change_listener (host w)); simpl; [| unchanged Hinv].
    destruct (effect (component w)) as [e |]; simpl; [| unchanged Hinv].
    destruct (negb (mounted e) || negb (permStatus e)); unchanged Hinv.
  - (* Unmount *)
    destruct (in_tree (host w)); [| discriminate Hstep].
    injection Hstep as <-.
    unfold effect_cleanup, exec, bind, read; simpl.
    destruct (effect (component w)) as [e |]; simpl; [| unchanged Hinv].
    destruct (permStatus e && status_listeners env); unchanged Hinv.
Qed.

Lemma reachable_invariant env w : reachable env w -> invariant env w.
Proof.
  intros (p & evs & Hrun).
  pose proof (mount_invariant env p) as H0.
  revert H0 Hrun. generalize (mount env p) as w0.
  induction evs as [| ev evs IH]; intros w0 H0 Hrun; simpl in Hrun.
  - injection Hrun as <-. exact H0.
  - destruct (step env ev w0) as [w1 |] eqn:Hstep; [| discriminate Hrun].
    apply (IH w1); [eapply step_invariant; eassumption | exact Hrun].
Qed.

(** The permissions effect does mark the instance inactive: once [mounted]
    is false, neither the query's [then] callback nor [handleChange] writes
    anything. [handleSuccess] and [handleError] have no such guard. *)
Lemma permission_callbacks_ignored_after_unmount env e w :
  effect (component w) = Some e -> mounted e = false ->
  component (exec (query_then env) w) = component w /\
  component (exec handleChange w) = component w.
Proof.
  intros He Hm. unfold query_then, handleChange, exec, bind, read. simpl.
  rewrite He, Hm. simpl. split; reflexivity.
Qed.

Lemma unmount_marks_inactive env w w' e :
  effect (component w) = Some e ->
  step env Unmount w = Some w' ->
  effect (component w') = Some {| mounted := false; permStatus := permStatus e |} /\
  in_tree (host w') = false /\
  watches (host w') = watches (host w) /\
  requests (host w') = requests (host w).
Proof.
  intros He Hstep. simpl in Hstep.
  destruct (in_tree (host w)); [| discriminate Hstep].
  injection Hstep as <-.
  unfold effect_cleanup, exec, bind, read. simpl. rewrite He. simpl.
  destruct (permStatus e && status_listeners env); simpl; repeat split.
Qed.

Lemma run_app env evs1 evs2 w :
  run env (evs1 ++ evs2) w =
  match run env evs1 w with
  | Some w' => run env evs2 w'
  | None => None
  end.
Proof.
  revert w. induction evs1 as [| ev evs1 IH]; intros w; simpl; [reflexivity |].
  destruct (step env ev w); [apply IH | reflexivity].
Qed.

Lemma reachable_step env ev w w' :
  reachable env w -> step env ev w = Some w' -> reachable env w'.
Proof.
  intros (p & evs & Hrun) Hstep. exists p, (evs ++ [ev])%list.
  rewrite run_app, Hrun. simpl. rewrite Hstep. reflexivity.
Qed.


Lemma handleSuccess_component pos w :
  component (exec (handleSuccess pos) w) =
  {| position := Some
       {| latitude := coords_latitude (coords pos);
          longitude := coords_longitude (coords pos);
          accuracy := coords_accuracy (coords pos);
          altitude := coords_altitude (coords pos);
          altitudeAccuracy := coords_altitudeAccuracy (coords pos);
          heading := coords_heading (coords pos);
          speed := coords_speed (coords pos);
          timestamp := pos_timestamp pos |};
     error := None;
     loading := false;
     watching := watching (component w);
     permissionState := permissionState (component w);
     watchIdRef := watchIdRef (component w);
     effect := effect (component w) |}.
Proof. reflexivity. Qed.

Lemma success_event env pos w w' :
  step env (CurrentPosition pos) w = Some w' \/
  (exists id, step env (WatchUpdate id pos) w = Some w') ->
  component w' = component (exec (handleSuccess pos) w).
Proof.
  intros [H | [id H]]; simpl in H.
  - destruct (requests (host w)); [discriminate H |]. injection H as <-. reflexivity.
  - destruct (watches (host w) !! id); [| discriminate H]. injection H as <-. reflexivity.
Qed.

Lemma failure_event env err w w' :
  step env (CurrentPositionError err) w = Some w' \/
  (exists id ended, step env (WatchError id err ended) w = Some w') ->
  component w' = component (exec (handleError err) w).
Proof.
  intros [H | (id & ended & H)]; simpl in H.
  - destruct (requests (host w)); [discriminate H |]. injection H as <-. reflexivity.
  - destruct (watches (host w) !! id); [| discriminate H]. injection H as <-.
    destruct ended; reflexivity.
Qed.


Lemma held_position_needs_window env w :
  reachable env w -> position (component w) <> None ->
  window_defined env = true /\ navigator_geolocation env = true.
Proof.
  intros Hr Hp. apply reachable_invariant in Hr.
  destruct (geolocation_missing env) eqn:Hg.
  - destruct (inv_missing _ _ Hr Hg) as (_ & _ & Hx & _). contradiction.
  - unfold geolocation_missing in Hg.
    destruct (window_defined env), (navigator_geolocation env);
      simpl in Hg; try discriminate Hg; split; reflexivity.
Qed.

(** The strings [Number::toString] gives for some familiar values. *)
Example toString_samples :
  toString (of_decimal false 377749 (-4)) = "37.7749" /\
  toString (of_decimal true 1224194 (-4)) = "-122.4194" /\
  toString (of_decimal false 1 (-1)) = "0.1" /\
  toString (of_decimal false 25 0) = "25" /\
  toString (of_decimal false 1 21) = "1e+21" /\
  toString (of_decimal false 1 (-7)) = "1e-7" /\
  toString (of_decimal false 1700000000000 0) = "1700000000000" /\
  toString (S754_zero true) = "0" /\
  toString S754_nan = "NaN".
Proof. vm_compute. repeat split. Qed.

(** [startWatching] itself neither looks at [watchIdRef] nor cancels
    anything: called with a handle held it would leave the old
    subscription live and unreferenced. Only the view keeps this from
    happening: it offers the Start button when [watching] is false. *)
Remark startWatching_does_not_cancel env w id :
  geolocation_missing env = false ->
  watchIdRef (component w) = Some id ->
  id <> next_watch_id (host w) ->
  is_Some (watches (host w) !! id) ->
  let w' := exec (startWatching env) w in
  watchIdRef (component w') = Some (next_watch_id (host w)) /\
  is_Some (watches (host w') !! id).
Proof.
  intros Hg Hr Hne Hw. unfold startWatching. rewrite Hg. simpl.
  split; [reflexivity |]. rewrite lookup_insert_ne by congruence. exact Hw.
Qed.






(** C4. Where the Location Service is unavailable, StartTracking sets the
    error to exactly "Geolocation is not supported by your browser.",
    leaves [watching] and the handle as they were and touches nothing in the
    browser, so no subscription is created; in every state the component
    can reach there, [watching] is false before and after. *)
Theorem startWatching_without_geolocation env w :
  geolocation_missing env = true ->
  error (component (exec (startWatching env) w)) =
    Some "Geolocation is not supported by your browser." /\
  watching (component (exec (startWatching env) w)) = watching (component w) /\
  watchIdRef (component (exec (startWatching env) w)) = watchIdRef (component w) /\
  host (exec (startWatching env) w) = host w /\
  (reachable env w ->
   watching (component (exec (startWatching env) w)) = false /\
   watches (host (exec (startWatching env) w)) = ∅).
Proof.
  intros Hg. unfold startWatching. rewrite Hg. simpl.
  do 4 (split; [reflexivity |]).
  intros Hr. apply reachable_invariant in Hr.
  destruct (inv_missing _ _ Hr Hg) as (Href & Hw & _).
  split; [exact Hw |].
  apply no_handle_no_watches; [exact (inv_session _ _ Hr) | exact Href].
Qed.

Lemma startWatching_without_geolocation_witness :
  geolocation_missing no_geolocation = true /\
  reachable no_geolocation (mount no_geolocation prompt) /\
  error (component (exec (startWatching no_geolocation)
                          (mount no_geolocation prompt))) =
    Some "Geolocation is not supported by your browser." /\
  watching (component (exec (startWatching no_geolocation)
                             (mount no_geolocation prompt))) = false.
Proof.
  assert (Hg : geolocation_missing no_geolocation = true) by reflexivity.
  assert (Hr : reachable no_geolocation (mount no_geolocation prompt))
    by (exists prompt, []; reflexivity).
  destruct (startWatching_without_geolocation no_geolocation
              (mount no_geolocation prompt) Hg) as (He & _ & _ & _ & Hw).
  split; [exact Hg |]. split; [exact Hr |]. split; [exact He |].
  exact (proj1 (Hw Hr)).
Defined.

(** C5. In every state a successful location callback populates the
    position, sets the error to absent and clears the loading flag. In
    particular a RequestOnce issued after a failure, once it succeeds,
    leaves no error behind. *)
Theorem success_clears_error_and_loading env pos w :
  (is_Some (position (component (exec (handleSuccess pos) w))) /\
   error (component (exec (handleSuccess pos) w)) = None /\
   loading (component (exec (handleSuccess pos) w)) = false) /\
  (forall w',
      step env (CurrentPosition pos) w = Some w' \/
      (exists id, step env (WatchUpdate id pos) w = Some w') ->
      is_Some (position (component w')) /\
      error (component w') = None /\
      loading (component w') = false) /\
  (forall err,
      geolocation_missing env = false ->
      is_Some (error (component (exec (handleError err) w))) /\
      is_Some (error (component (exec (getOneShot env) (exec (handleError err) w)))) /\
      loading (component (exec (getOneShot env) (exec (handleError err) w))) = true /\
      exists w',
        step env (CurrentPosition pos)
          (exec (getOneShot env) (exec (handleError err) w)) = Some w' /\
        is_Some (position (component w')) /\
        error (component w') = None /\
        loading (component w') = false).
Proof.
  split; [| split].
  - rewrite handleSuccess_component. simpl. repeat split. eexists; reflexivity.
  - intros w' H. apply success_event in H. rewrite H, handleSuccess_component.
    simpl. repeat split. eexists; reflexivity.
  - intros err Hg. unfold getOneShot. rewrite Hg.
    split; [eexists; reflexivity |]. split; [eexists; reflexivity |].
    split; [reflexivity |].
    simpl.
    destruct (requests (host w)); simpl; eexists;
      (split; [reflexivity |]); simpl; repeat split; eexists; reflexivity.
Qed.

Lemma success_clears_error_and_loading_witness :
  geolocation_missing browser = false /\
  (exists w',
      step browser (CurrentPosition san_francisco)
        (exec (getOneShot browser)
           (exec (handleError permission_denied) (mount browser prompt)))
        = Some w' /\
      error (component w') = None /\ loading (component w') = false) /\
  step browser (WatchUpdate 1 san_francisco) tracking = Some holding /\
  error (component holding) = None /\
  loading (component holding) = false.
Proof.
  assert (Hg : geolocation_missing browser = false) by reflexivity.
  assert (Hs : step browser (WatchUpdate 1 san_francisco) tracking = Some holding)
    by reflexivity.
  destruct (success_clears_error_and_loading browser san_francisco
              (mount browser prompt)) as (_ & _ & Hretry).
  destruct (success_clears_error_and_loading browser san_francisco tracking)
    as (_ & Hev & _).
  destruct (Hretry permission_denied Hg) as (_ & _ & _ & w' & Hw' & _ & He & Hl).
  destruct (Hev holding (or_intror (ex_intro _ 1 Hs))) as (_ & He' & Hl').
  split; [exact Hg |].
  split; [exists w'; split; [exact Hw' |]; split; [exact He | exact Hl] |].
  split; [exact Hs |]. split; [exact He' | exact Hl'].
Defined.

(** C6. A failing location callback sets the error to the failure's
    message when it has one (a non-empty string), and to the failure's
    string form when the message is missing or empty; it clears the loading
    flag and leaves the held position as it was. Both callback paths go
    through [handleError]. *)
Theorem failure_sets_error_message env err w :
  ((forall m, err_message err = Some m -> m <> "" ->
      error (component (exec (handleError err) w)) = Some m) /\
   (err_message err = None \/ err_message err = Some "" ->
      error (component (exec (handleError err) w)) = Some (err_string err)) /\
   loading (component (exec (handleError err) w)) = false /\
   position (component (exec (handleError err) w)) = position (component w)) /\
  (forall w',
      step env (CurrentPositionError err) w = Some w' \/
      (exists id ended, step env (WatchError id err ended) w = Some w') ->
      (forall m, err_message err = Some m -> m <> "" ->
         error (component w') = Some m) /\
      (err_message err = None \/ err_message err = Some "" ->
         error (component w') = Some (err_string err)) /\
      loading (component w') = false /\
      position (component w') = position (component w)).
Proof.
  assert (Hfn :
    (forall m, err_message err = Some m -> m <> "" ->
       error (component (exec (handleError err) w)) = Some m) /\
    (err_message err = None \/ err_message err = Some "" ->
       error (component (exec (handleError err) w)) = Some (err_string err)) /\
    loading (component (exec (handleError err) w)) = false /\
    position (component (exec (handleError err) w)) = position (component w)).
  { simpl. repeat split.
    - intros m Hm Hne. rewrite Hm. destruct m; [contradiction | reflexivity].
    - intros [Hm | Hm]; rewrite Hm; reflexivity. }
  split; [exact Hfn |].
  intros w' H. apply failure_event in H. rewrite H. exact Hfn.
Qed.

Lemma failure_sets_error_message_witness :
  err_message permission_denied = Some "User denied Geolocation" /\
  error (component (exec (handleError permission_denied) holding)) =
    Some "User denied Geolocation" /\
  err_message position_unavailable = Some "" /\
  error (component (exec (handleError position_unavailable) holding)) =
    Some "[object GeolocationPositionError]" /\
  step browser (WatchError 1 position_unavailable false) holding =
    Some (exec (handleError position_unavailable) holding) /\
  position (component (exec (handleError position_unavailable) holding)) =
    position (component holding).
Proof.
  assert (Hs : step browser (WatchError 1 position_unavailable false) holding =
               Some (exec (handleError position_unavailable) holding))
    by reflexivity.
  destruct (failure_sets_error_message browser permission_denied holding)
    as [(Hmsg & _) _].
  destruct (failure_sets_error_message browser position_unavailable holding)
    as [(_ & Hstr & _) Hev].
  destruct (Hev _ (or_intror (ex_intro _ 1 (ex_intro _ false Hs))))
    as (_ & _ & _ & Hpos).
  split; [reflexivity |].
  split; [apply Hmsg; [reflexivity | discriminate] |].
  split; [reflexivity |].
  split; [apply Hstr; right; reflexivity |].
  split; [exact Hs | exact Hpos].
Defined.

Lemma stopWatching_twice env w :
  exec (stopWatching env) (exec (stopWatching env) w) = exec (stopWatching env) w.
Proof.
  destruct w as [c h]. destruct c as [p e l wa ps r ef].
  unfold stopWatching, exec, bind, read. simpl.
  destruct (window_defined env && navigator_geolocation env); simpl;
    [| reflexivity].
  destruct r; reflexivity.
Qed.

(** C7. StopTracking with no tracking session active changes nothing but
    [watching], which is false afterwards: the error message, every other
    field of the component and the browser stay as they were (the function
    has no failing path). Invoking it twice gives the state one invocation
    gives, whether or not a session was active. *)
Theorem stopWatching_idempotent env w :
  exec (stopWatching env) (exec (stopWatching env) w) = exec (stopWatching env) w /\
  watching (component (exec (stopWatching env) w)) = false /\
  (watchIdRef (component w) = None ->
   exec (stopWatching env) w = exec (setWatching false) w /\
   error (component (exec (stopWatching env) w)) = error (component w) /\
   watchIdRef (component (exec (stopWatching env) w)) = None /\
   host (exec (stopWatching env) w) = host w /\
   (watching (component w) = false -> exec (stopWatching env) w = w)).
Proof.
  split; [apply stopWatching_twice |].
  split.
  - unfold stopWatching, exec, bind, read. simpl.
    destruct (window_defined env && navigator_geolocation env); simpl;
      [| reflexivity].
    destruct (watchIdRef (component w)); reflexivity.
  - intros Hr. destruct w as [c h]. destruct c as [p e l wa ps r ef].
    simpl in Hr. subst r.
    unfold stopWatching, exec, bind, read. simpl.
    destruct (window_defined env && navigator_geolocation env); simpl;
      (do 4 (split; [reflexivity |])); intros Hw; subst wa; reflexivity.
Qed.

Lemma stopWatching_idempotent_witness :
  watchIdRef (component (mount browser prompt)) = None /\
  watching (component (mount browser prompt)) = false /\
  exec (stopWatching browser) (mount browser prompt) = mount browser prompt.
Proof.
  assert (Hr : watchIdRef (component (mount browser prompt)) = None)
    by reflexivity.
  assert (Hw : watching (component (mount browser prompt)) = false)
    by reflexivity.
  destruct (stopWatching_idempotent browser (mount browser prompt))
    as (_ & _ & Hidle).
  destruct (Hidle Hr) as (_ & _ & _ & _ & Hsame).
  split; [exact Hr |]. split; [exact Hw |]. exact (Hsame Hw).
Defined.

(** C8. CopyCoordinates with no position held writes nothing to the
    clipboard and leaves the whole state as it was. With a position held
    the component is unchanged and the one text handed to the clipboard,
    when the page has a clipboard, is the latitude, a comma, a space and
    the longitude; the textarea fallback of a rejected write copies that
    same text. Every text the component ever hands to the clipboard has
    this form. *)
Theorem copyToClipboard_writes_coordinates env w :
  (position (component w) = None -> exec (copyToClipboard env) w = w) /\
  (forall p,
      position (component w) = Some p ->
      component (exec (copyToClipboard env) w) = component w /\
      execCommand_copies (host (exec (copyToClipboard env) w)) =
        execCommand_copies (host w) /\
      writeText_calls (host (exec (copyToClipboard env) w)) =
        (writeText_calls (host w) ++
           (if window_defined env && navigator_clipboard env
            then [(toString (latitude p) ++ ", " ++ toString (longitude p))%string]
            else []))%list /\
      (window_defined env && navigator_clipboard env = true ->
       writeText_pending (host w) = [] ->
       exists w',
         step env WriteTextRejected (exec (copyToClipboard env) w) = Some w' /\
         execCommand_copies (host w') =
           (execCommand_copies (host w) ++
              [(toString (latitude p) ++ ", " ++ toString (longitude p))%string])%list)) /\
  (reachable env w ->
   Forall coordinate_text (writeText_calls (host w)) /\
   Forall coordinate_text (execCommand_copies (host w))).
Proof.
  split; [| split].
  - intros Hp. unfold copyToClipboard, exec, bind, read. simpl. rewrite Hp.
    reflexivity.
  - intros p Hp. unfold copyToClipboard, exec, bind, read. simpl. rewrite Hp.
    unfold clipboard_text.
    destruct (window_defined env); simpl.
    + destruct (navigator_clipboard env); simpl.
      * repeat (split; [reflexivity |]). intros _ Hpend. rewrite Hpend. simpl.
        eexists. split; reflexivity.
      * split; [reflexivity |]. split; [reflexivity |].
        split; [symmetry; apply app_nil_r |]. intros H; discriminate H.
    + split; [reflexivity |]. split; [reflexivity |].
      split; [symmetry; apply app_nil_r |]. intros H; discriminate H.
  - intros Hr. apply reachable_invariant in Hr.
    pose proof (inv_texts _ _ Hr) as Ht.
    apply Forall_app in Ht as [H1 Ht]. apply Forall_app in Ht as [_ H3].
    split; assumption.
Qed.

Lemma copyToClipboard_writes_coordinates_witness :
  position (component holding) = Some
    {| latitude := of_decimal false 377749 (-4);
       longitude := of_decimal true 1224194 (-4);
       accuracy := of_decimal false 25 0;
       altitude := None; altitudeAccuracy := None;
       heading := None; speed := None;
       timestamp := of_decimal false 1700000000000 0 |} /\
  writeText_calls (host (exec (copyToClipboard browser) holding)) =
    ["37.7749, -122.4194"] /\
  (exists w',
      step browser WriteTextRejected (exec (copyToClipboard browser) holding)
        = Some w' /\
      execCommand_copies (host w') = ["37.7749, -122.4194"]) /\
  position (component (mount browser prompt)) = None /\
  exec (copyToClipboard browser) (mount browser prompt) = mount browser prompt /\
  reachable browser holding /\
  Forall coordinate_text (writeText_calls (host holding)).
Proof.
  assert (Hr : reachable browser holding)
    by (exists prompt, [Click OnStartWatching; WatchUpdate 1 san_francisco];
        reflexivity).
  destruct (copyToClipboard_writes_coordinates browser holding)
    as (_ & Hheld & Hall).
  destruct (copyToClipboard_writes_coordinates browser (mount browser prompt))
    as (Hnone & _).
  destruct (Hheld _ eq_refl) as (_ & _ & Hcalls & Hfallback).
  destruct (Hfallback eq_refl eq_refl) as (w' & Hw' & Hcopies).
  split; [reflexivity |].
  split; [rewrite Hcalls; vm_compute; reflexivity |].
  split; [exists w'; split; [exact Hw' |]; rewrite Hcopies; vm_compute; reflexivity |].
  split; [reflexivity |].
  split; [apply Hnone; reflexivity |].
  split; [exact Hr | exact (proj1 (Hall Hr))].
Defined.

(** C9. With a position held (and a window, which a component that holds
    a position always has) OpenInMapViewer opens exactly one browsing
    context, with target "_blank", features "noopener,noreferrer" and the
    URL "https://www.google.com/maps?q=" followed by the latitude, a comma
    and the longitude; for latitude 37.7749 and longitude -122.4194 that is
    "https://www.google.com/maps?q=37.7749,-122.4194". With no position
    held it does nothing. *)
Theorem openInMaps_url env w :
  (position (component w) = None -> exec (openInMaps env) w = w) /\
  (forall p,
      position (component w) = Some p ->
      window_defined env = true \/ reachable env w ->
      component (exec (openInMaps env) w) = component w /\
      host (exec (openInMaps env) w) =
        set_window_open_calls
          (window_open_calls (host w) ++
             [(("https://www.google.com/maps?q=" ++ toString (latitude p)
                  ++ "," ++ toString (longitude p))%string,
               "_blank", "noopener,noreferrer")])%list
          (host w)) /\
  (forall p,
      position (component w) = Some p ->
      latitude p = of_decimal false 377749 (-4) ->
      longitude p = of_decimal true 1224194 (-4) ->
      window_defined env = true \/ reachable env w ->
      window_open_calls (host (exec (openInMaps env) w)) =
        (window_open_calls (host w) ++
           [("https://www.google.com/maps?q=37.7749,-122.4194",
             "_blank", "noopener,noreferrer")])%list).
Proof.
  assert (Hwin : forall p, position (component w) = Some p ->
                 window_defined env = true \/ reachable env w ->
                 window_defined env = true).
  { intros p Hp [H | H]; [exact H |].
    apply (held_position_needs_window env w H). rewrite Hp. discriminate. }
  split; [| split].
  - intros Hp. unfold openInMaps, exec, bind, read. simpl. rewrite Hp.
    reflexivity.
  - intros p Hp Hw. unfold openInMaps, exec, bind, read. simpl.
    rewrite Hp, (Hwin p Hp Hw). simpl. split; reflexivity.
  - intros p Hp Hlat Hlon Hw. unfold openInMaps, exec, bind, read. simpl.
    rewrite Hp, (Hwin p Hp Hw). simpl. unfold maps_url. rewrite Hlat, Hlon.
    f_equal.
Qed.

Lemma openInMaps_url_witness :
  reachable browser holding /\
  window_open_calls (host (exec (openInMaps browser) holding)) =
    [("https://www.google.com/maps?q=37.7749,-122.4194",
      "_blank", "noopener,noreferrer")] /\
  position (component (mount browser prompt)) = None /\
  exec (openInMaps browser) (mount browser prompt) = mount browser prompt.
Proof.
  assert (Hr : reachable browser holding)
    by (exists prompt, [Click OnStartWatching; WatchUpdate 1 san_francisco];
        reflexivity).
  destruct (openInMaps_url browser holding) as (_ & _ & Hsf).
  destruct (openInMaps_url browser (mount browser prompt)) as (Hnone & _).
  split; [exact Hr |].
  split; [exact (Hsf _ eq_refl eq_refl eq_refl (or_intror Hr)) |].
  split; [reflexivity | apply Hnone; reflexivity].
Defined.

(** C10. StopTracking leaves the position, the error, the loading flag and
    the permission state as they were; of the component it writes only
    [watching] and the handle, and of the browser only the set of live
    subscriptions. *)
Theorem stopWatching_frame env w :
  position (component (exec (stopWatching env) w)) = position (component w) /\
  error (component (exec (stopWatching env) w)) = error (component w) /\
  loading (component (exec (stopWatching env) w)) = loading (component w) /\
  permissionState (component (exec (stopWatching env) w)) =
    permissionState (component w) /\
  effect (component (exec (stopWatching env) w)) = effect (component w) /\
  host (exec (stopWatching env) w) =
    set_watches (watches (host (exec (stopWatching env) w))) (host w).
Proof.
  unfold stopWatching, exec, bind, read. simpl.
  destruct (window_defined env && navigator_geolocation env); simpl.
  - destruct (watchIdRef (component w)); simpl;
      repeat split; destruct w as [c h]; destruct h; reflexivity.
  - repeat split; destruct w as [c h]; destruct h; reflexivity.
Qed.

(** ** Further properties of the component *)

(** Induction over the states a component can reach. *)
Lemma reachable_induction env (P : World -> Prop) :
  (forall p, P (mount env p)) ->
  (forall ev w w', reachable env w -> P w -> step env ev w = Some w' -> P w') ->
  forall w, reachable env w -> P w.
Proof.
  intros Hmount Hstep w (p & evs & Hrun). revert w Hrun.
  induction evs as [| ev evs IH] using rev_ind; intros w Hrun.
  - injection Hrun as <-. apply Hmount.
  - rewrite run_app in Hrun.
    destruct (run env evs (mount env p)) as [w1 |] eqn:H1; [| discriminate Hrun].
    simpl in Hrun.
    destruct (step env ev w1) as [w2 |] eqn:H2; [| discriminate Hrun].
    injection Hrun as <-.
    apply (Hstep ev w1 w2); [exists p, evs; exact H1 | apply IH; reflexivity | exact H2].
Qed.

(** What a click does, handler by handler. *)
Lemma step_click env a w w' :
  step env (Click a) w = Some w' ->
  in_tree (host w) = true /\
  clickable a (render (component w)) = true /\
  w' = exec (dispatch env a) w.
Proof.
  simpl. destruct (in_tree (host w)); simpl; [| discriminate].
  destruct (clickable a (render (component w))); [| discriminate].
  intros H. injection H as <-. repeat split.
Qed.

Lemma clickable_spec c :
  clickable OnGetOneShot (render c) = negb (loading c) /\
  clickable OnStartWatching (render c) = negb (watching c) /\
  clickable OnStopWatching (render c) = watching c /\
  clickable OnCopyToClipboard (render c) = bool_decide (is_Some (position c)) /\
  clickable OnOpenInMaps (render c) = bool_decide (is_Some (position c)).
Proof.
  destruct c as [p e l wa ps r ef]. unfold clickable. simpl.
  destruct l, wa, p; simpl; repeat split.
Qed.

Lemma mount_requests env p : requests_invariant (mount env p).
Proof.
  unfold mount, permissions_effect.
  destruct (negb (window_defined env) || negb (navigator_permissions env));
    (split; simpl; [intros H; discriminate H | constructor
                   | intros id o H; rewrite lookup_empty in H; discriminate H]).
Qed.

(** Open the guard of a step and name the world it leads to. *)
Ltac open_guard H :=
  repeat match type of H with
  | (if ?b then _ else _) = Some _ =>
      let E := fresh "Hguard" in destruct b eqn:E; [| discriminate H]
  | (match ?x with _ => _ end) = Some _ =>
      let E := fresh "Hguard" in destruct x eqn:E; try discriminate H
  end;
  try (injection H as <-).

Ltac branches :=
  repeat match goal with
  | |- context [if ?b then _ else _] => destruct b eqn:?
  | |- context [match ?x with Some _ => _ | None => _ end] => destruct x eqn:?
  end.

Ltac handlers :=
  simpl;
  unfold getOneShot, startWatching, stopWatching, copyToClipboard, openInMaps,
    query_then, handleChange, effect_cleanup, exec, bind, read, read_host;
  simpl.

Lemma step_requests env ev w w' :
  requests_invariant w -> step env ev w = Some w' -> requests_invariant w'.
Proof.
  intros Hinv Hstep. pose proof Hinv as [Hl Ho Hw].
  destruct ev; simpl in Hstep; open_guard Hstep;
    try destruct h; try destruct ended; handlers; branches;
    try exact Hinv;
    (split; simpl; [try exact Hl; try (intros H; discriminate H)
                   | try exact Ho | try exact Hw]).
  - intros _ Hnil. apply app_eq_nil in Hnil as [_ Hnil]. discriminate Hnil.
  - apply Forall_app. split; [exact Ho | repeat constructor].
  - intros id o Hlook. apply lookup_insert_Some in Hlook as [[_ <-] | [_ Hlook]];
      [reflexivity | exact (Hw _ _ Hlook)].
  - intros id o Hlook. apply lookup_delete_Some in Hlook as [_ Hlook].
    exact (Hw _ _ Hlook).
  - inversion Ho; assumption.
  - inversion Ho; assumption.
  - intros id0 o Hlook. apply lookup_delete_Some in Hlook as [_ Hlook].
    exact (Hw _ _ Hlook).
Qed.

Lemma reachable_requests env w : reachable env w -> requests_invariant w.
Proof.
  apply reachable_induction.
  - apply mount_requests.
  - intros ev w1 w2 _. apply step_requests.
Qed.

Lemma mount_permission env p : permission_invariant env (mount env p).
Proof.
  unfold mount, permissions_effect.
  destruct (negb (window_defined env) || negb (navigator_permissions env)) eqn:Hapi;
    split; simpl; try reflexivity; try discriminate; try (repeat split; fail).
  all: try (intros e He; injection He as <-; simpl;
            first [reflexivity | intros _; split; reflexivity | intros _; reflexivity]).
  intros H. rewrite Hapi in H. discriminate H.
Qed.

Ltac settle_perm :=
  simpl in *;
  repeat match goal with
  | H : ?A -> _, H' : ?A |- _ => specialize (H H')
  | H : forall e, Some ?x = Some e -> _ |- _ => specialize (H _ eq_refl)
  | H : ?x = ?x -> _ |- _ => specialize (H eq_refl)
  | H : _ /\ _ |- _ => destruct H
  | _ => progress simpl in *
  end;
  repeat split; try discriminate; try congruence; auto.

Ltac same_permission Hinv :=
  split; simpl;
  [ exact (perm_no_api _ _ Hinv) | exact (perm_no_effect _ _ Hinv)
  | exact (perm_not_yet _ _ Hinv) | exact (perm_pending _ _ Hinv)
  | exact (perm_mounted _ _ Hinv) | exact (perm_listening _ _ Hinv) ].

Lemma step_permission env ev w w' :
  permission_invariant env w -> step env ev w = Some w' ->
  permission_invariant env w'.
Proof.
  intros Hinv Hstep.
  destruct ev; simpl in Hstep; open_guard Hstep;
    try destruct h; try destruct ended; handlers;
    try (branches; first [exact Hinv | same_permission Hinv]; fail).
  - (* QueryFulfilled *)
    destruct Hinv as [Hapi Hnone Hnot Hpend Hmount Hlisten].
    destruct w as [c h]; destruct c as [p er l wa ps r ef], h; simpl in *.
    destruct ef as [e |]; simpl.
    + destruct e as [m st]. specialize (Hmount _ eq_refl). simpl in *.
      specialize (Hpend _ eq_refl Hguard). simpl in Hpend. subst.
      destruct (Hnot _ eq_refl eq_refl) as [-> ->].
      destruct in_tree0; simpl.
      * destruct (status_listeners env) eqn:Hsl; split; simpl; intros;
          simplify_eq; auto; settle_perm.
      * split; simpl; intros; simplify_eq; auto; settle_perm.
    + split; simpl; intros; simplify_eq; auto; settle_perm.
  - (* QueryRejected *)
    destruct Hinv as [Hapi Hnone Hnot Hpend Hmount Hlisten].
    split; simpl; intros; simplify_eq; auto; settle_perm.
  - (* PermissionChange *)
    destruct Hinv as [Hapi Hnone Hnot Hpend Hmount Hlisten].
    destruct w as [c h]; destruct c as [pos er l wa ps r ef], h; simpl in *.
    destruct change_listener0; simpl.
    + destruct (Hlisten eq_refl) as (Hsl & -> & ->).
      destruct ef as [[m st] |]; simpl.
      * specialize (Hmount _ eq_refl). simpl in Hmount. subst m.
        destruct st; simpl.
        -- split; simpl; intros; simplify_eq; auto; settle_perm.
        -- destruct (Hnot _ eq_refl eq_refl) as [_ Hx]. discriminate Hx.
      * destruct (Hnone eq_refl) as (_ & _ & Hx). discriminate Hx.
    + split; simpl; intros; simplify_eq; auto; settle_perm.
  - (* Unmount *)
    destruct Hinv as [Hapi Hnone Hnot Hpend Hmount Hlisten].
    destruct w as [c h]; destruct c as [pos er l wa ps r ef], h; simpl in *.
    subst in_tree0.
    destruct ef as [[m st] |]; simpl.
    + specialize (Hmount _ eq_refl). simpl in Hmount. subst m.
      destruct st; simpl.
      * destruct (status_listeners env) eqn:Hsl; simpl;
          split; simpl; intros; simplify_eq; auto; settle_perm.
      * split; simpl; intros; simplify_eq; auto; settle_perm.
    + split; simpl; intros; simplify_eq; auto; settle_perm.
Qed.

Lemma reachable_permission env w : reachable env w -> permission_invariant env w.
Proof.
  apply reachable_induction.
  - apply mount_permission.
  - intros ev w1 w2 _. apply step_permission.
Qed.

Lemma mount_output env p : output_invariant (mount env p).
Proof.
  unfold mount, permissions_effect.
  destruct (negb (window_defined env) || negb (navigator_permissions env));
    split; simpl; auto.
Qed.

Ltac same_output Hinv :=
  split; simpl; [exact (out_windows _ Hinv) | exact (out_clipboard _ Hinv)].

Lemma step_output env ev w w' :
  output_invariant w -> step env ev w = Some w' -> output_invariant w'.
Proof.
  intros Hinv Hstep. pose proof Hinv as [Hwin Hclip].
  destruct ev; simpl in Hstep; open_guard Hstep;
    try destruct h; try destruct ended; handlers; branches;
    try exact Hinv; try same_output Hinv.
  - (* copyToClipboard *)
    split; simpl; [exact Hwin |]. rewrite !length_app. simpl. lia.
  - (* openInMaps *)
    split; simpl; [| exact Hclip].
    apply Forall_app. split; [exact Hwin |].
    constructor; [eexists; reflexivity | constructor].
  - (* WriteTextFulfilled *)
    split; simpl; [exact Hwin |]. simpl in Hclip. lia.
  - (* WriteTextRejected *)
    split; simpl; [exact Hwin |]. rewrite length_app. simpl in *. lia.
Qed.

Lemma reachable_output env w : reachable env w -> output_invariant w.
Proof.
  apply reachable_induction.
  - apply mount_output.
  - intros ev w1 w2 _. apply step_output.
Qed.

Lemma mount_unsupported env p : unsupported_invariant (mount env p).
Proof.
  unfold mount, permissions_effect.
  destruct (negb (window_defined env) || negb (navigator_permissions env));
    split; simpl; auto.
Qed.

Ltac same_unsupported Hinv :=
  split; simpl;
  [ exact (uns_error _ Hinv) | exact (uns_loading _ Hinv)
  | exact (uns_console _ Hinv) | exact (uns_clipboard _ Hinv)
  | exact (uns_windows _ Hinv) ].

Lemma step_unsupported env ev w w' :
  geolocation_missing env = true -> reachable env w ->
  unsupported_invariant w -> step env ev w = Some w' ->
  unsupported_invariant w'.
Proof.
  intros Hg Hr Hinv Hstep.
  pose proof (reachable_invariant _ _ Hr) as Hmain.
  destruct (inv_missing _ _ Hmain Hg) as (Href & Hwatching & Hpos & Hreq).
  pose proof (no_handle_no_watches _ (inv_session _ _ Hmain) Href) as Hnow.
  destruct ev; simpl in Hstep;
    try (rewrite Hreq in Hstep; discriminate Hstep);
    try (rewrite Hnow, lookup_empty in Hstep; discriminate Hstep);
    open_guard Hstep.
  - destruct h; handlers; try rewrite Hg; try rewrite Hpos; simpl.
    + split; simpl; try apply Hinv. right; reflexivity.
    + split; simpl; try apply Hinv. right; reflexivity.
    + branches; same_unsupported Hinv.
    + exact Hinv.
    + exact Hinv.
  - destruct (uns_clipboard _ Hinv) as (_ & Hx & _). congruence.
  - destruct (uns_clipboard _ Hinv) as (_ & Hx & _). congruence.
  - handlers; branches; same_unsupported Hinv.
  - same_unsupported Hinv.
  - handlers; branches; same_unsupported Hinv.
  - handlers; branches; same_unsupported Hinv.
Qed.

Lemma reachable_unsupported env w :
  geolocation_missing env = true -> reachable env w -> unsupported_invariant w.
Proof.
  intros Hg. apply reachable_induction.
  - apply mount_unsupported.
  - intros ev w1 w2. apply step_unsupported. exact Hg.
Qed.

(** X1. On a page without geolocation the component never leaves its
    initial look: no position, never loading, never watching, no request,
    no subscription, nothing logged, copied or opened; the only message it
    can show is "Geolocation is not supported by your browser."; Start stays
    on offer while Copy and Open in Maps stay disabled. *)
Theorem unsupported_browser_is_static env w :
  geolocation_missing env = true ->
  reachable env w ->
  position (component w) = None /\
  loading (component w) = false /\
  watching (component w) = false /\
  watchIdRef (component w) = None /\
  (error (component w) = None \/
   error (component w) = Some "Geolocation is not supported by your browser.") /\
  requests (host w) = [] /\
  watches (host w) = ∅ /\
  console_errors (host w) = [] /\
  writeText_calls (host w) = [] /\
  window_open_calls (host w) = [] /\
  panel (render (component w)) = None /\
  clickable OnStartWatching (render (component w)) = true /\
  clickable OnCopyToClipboard (render (component w)) = false /\
  clickable OnOpenInMaps (render (component w)) = false.
Proof.
  intros Hg Hr.
  pose proof (reachable_invariant _ _ Hr) as Hmain.
  pose proof (reachable_unsupported _ _ Hg Hr) as Huns.
  destruct (inv_missing _ _ Hmain Hg) as (Href & Hwatching & Hpos & Hreq).
  destruct (clickable_spec (component w)) as (_ & Hstart & _ & Hcopy & Hopen).
  rewrite Hstart, Hcopy, Hopen, Hwatching, Hpos.
  split; [reflexivity |]. split; [exact (uns_loading _ Huns) |].
  split; [reflexivity |]. split; [exact Href |].
  split; [exact (uns_error _ Huns) |]. split; [exact Hreq |].
  split; [exact (no_handle_no_watches _ (inv_session _ _ Hmain) Href) |].
  split; [exact (uns_console _ Huns) |].
  split; [exact (proj1 (uns_clipboard _ Huns)) |].
  split; [exact (uns_windows _ Huns) |].
  split; [unfold render; simpl; rewrite Hpos; reflexivity |].
  repeat split.
Qed.

Lemma unsupported_browser_is_static_witness :
  geolocation_missing no_geolocation = true /\
  reachable no_geolocation
    (exec (startWatching no_geolocation) (mount no_geolocation prompt)) /\
  watching (component
    (exec (startWatching no_geolocation) (mount no_geolocation prompt))) = false /\
  watches (host
    (exec (startWatching no_geolocation) (mount no_geolocation prompt))) = ∅.
Proof.
  assert (Hg : geolocation_missing no_geolocation = true) by reflexivity.
  assert (Hr : reachable no_geolocation
                 (exec (startWatching no_geolocation) (mount no_geolocation prompt)))
    by (exists prompt, [Click OnStartWatching]; reflexivity).
  destruct (unsupported_browser_is_static no_geolocation _ Hg Hr)
    as (_ & _ & Hw & _ & _ & _ & Hws & _).
  split; [exact Hg |]. split; [exact Hr |]. split; [exact Hw | exact Hws].
Defined.



(** X3. Whenever [loading] is set a one-shot request is outstanding (and
    the page has geolocation): the "Fetching…" state always has a callback
    still to come. *)
Theorem loading_has_request env w :
  reachable env w ->
  loading (component w) = true ->
  requests (host w) <> [] /\ geolocation_missing env = false.
Proof.
  intros Hr Hl. pose proof (req_loading _ (reachable_requests _ _ Hr) Hl) as Hq.
  split; [exact Hq |].
  destruct (geolocation_missing env) eqn:Hg; [| reflexivity].
  destruct (inv_missing _ _ (reachable_invariant _ _ Hr) Hg) as (_ & _ & _ & Hx).
  contradiction.
Qed.

Lemma loading_has_request_witness :
  reachable browser requesting /\
  loading (component requesting) = true /\
  requests (host requesting) <> [].
Proof.
  assert (Hr : reachable browser requesting)
    by (exists prompt, [Click OnStartWatching; Click OnGetOneShot]; reflexivity).
  assert (Hl : loading (component requesting) = true) by reflexivity.
  split; [exact Hr |]. split; [exact Hl |].
  exact (proj1 (loading_has_request browser requesting Hr Hl)).
Defined.

(** X4. The converse fails by design of [handleSuccess]: a reading from a
    running watch clears [loading] although the one-shot request is still
    outstanding, the button is enabled again, and a further click files a
    second request beside the first. The view alone does not keep
    one-shot requests to one at a time. *)
Theorem watch_reading_reenables_one_shot env w id pos w' :
  reachable env w ->
  requests (host w) <> [] ->
  in_tree (host w) = true ->
  step env (WatchUpdate id pos) w = Some w' ->
  requests (host w') = requests (host w) /\
  loading (component w') = false /\
  exists w'',
    step env (Click OnGetOneShot) w' = Some w'' /\
    requests (host w'') = (requests (host w) ++ [geoOptions])%list /\
    (2 <= length (requests (host w'')))%nat.
Proof.
  intros Hr Hq Htree Hstep.
  assert (Hg : geolocation_missing env = false).
  { destruct (geolocation_missing env) eqn:Hg; [| reflexivity].
    destruct (inv_missing _ _ (reachable_invariant _ _ Hr) Hg) as (_ & _ & _ & Hx).
    contradiction. }
  simpl in Hstep. destruct (watches (host w) !! id); [| discriminate Hstep].
  injection Hstep as <-. simpl.
  split; [reflexivity |]. split; [reflexivity |].
  rewrite Htree. unfold clickable. simpl.
  eexists. split; [reflexivity |].
  unfold getOneShot. rewrite Hg. simpl. split; [reflexivity |].
  rewrite length_app. simpl.
  destruct (requests (host w)); [contradiction | simpl; lia].
Qed.

Lemma watch_reading_reenables_one_shot_witness :
  reachable browser requesting /\
  requests (host requesting) <> [] /\
  in_tree (host requesting) = true /\
  exists w' w'',
    step browser (WatchUpdate 1 san_francisco) requesting = Some w' /\
    step browser (Click OnGetOneShot) w' = Some w'' /\
    (2 <= length (requests (host w'')))%nat.
Proof.
  assert (Hr : reachable browser requesting)
    by (exists prompt, [Click OnStartWatching; Click OnGetOneShot]; reflexivity).
  assert (Hq : requests (host requesting) <> []) by discriminate.
  assert (Ht : in_tree (host requesting) = true) by reflexivity.
  assert (Hs : step browser (WatchUpdate 1 san_francisco) requesting =
               Some (exec (handleSuccess san_francisco) requesting))
    by reflexivity.
  destruct (watch_reading_reenables_one_shot browser requesting 1 san_francisco
              _ Hr Hq Ht Hs) as (_ & _ & w'' & Hclick & _ & Hlen).
  split; [exact Hr |]. split; [exact Hq |]. split; [exact Ht |].
  exists (exec (handleSuccess san_francisco) requesting), w''.
  split; [exact Hs |]. split; [exact Hclick | exact Hlen].
Defined.

(** X5. Every one-shot request and every watch the component ever starts
    uses the options of [geoOptions]: high accuracy on, a timeout of
    10000 ms, and no cached position (maximumAge 0). *)
Theorem requests_use_geoOptions env w :
  reachable env w ->
  Forall (fun o => enableHighAccuracy o = true /\ timeout o = 10000%Z /\
                   maximumAge o = 0%Z) (requests (host w)) /\
  (forall id o, watches (host w) !! id = Some o ->
     enableHighAccuracy o = true /\ timeout o = 10000%Z /\ maximumAge o = 0%Z).
Proof.
  intros Hr. pose proof (reachable_requests _ _ Hr) as [_ Ho Hw].
  split.
  - eapply Forall_impl; [exact Ho |]. intros o <-. repeat split.
  - intros id o Hlook. rewrite (Hw _ _ Hlook). repeat split.
Qed.

Lemma requests_use_geoOptions_witness :
  reachable browser requesting /\
  requests (host requesting) <> [] /\
  is_Some (watches (host requesting) !! 1%Z) /\
  Forall (fun o => enableHighAccuracy o = true /\ timeout o = 10000%Z /\
                   maximumAge o = 0%Z) (requests (host requesting)).
Proof.
  assert (Hr : reachable browser requesting)
    by (exists prompt, [Click OnStartWatching; Click OnGetOneShot]; reflexivity).
  split; [exact Hr |]. split; [discriminate |].
  split; [eexists; reflexivity |].
  exact (proj1 (requests_use_geoOptions browser requesting Hr)).
Defined.

Lemma run_reachable env evs w w' :
  reachable env w -> run env evs w = Some w' -> reachable env w'.
Proof.
  revert w. induction evs as [| ev evs IH]; intros w Hr Hrun; simpl in Hrun.
  - injection Hrun as <-. exact Hr.
  - destruct (step env ev w) as [w1 |] eqn:Hstep; [| discriminate Hrun].
    apply (IH w1); [eapply reachable_step; eassumption | exact Hrun].
Qed.

(** A property kept by every step from reachable states is kept by every
    run. *)
Lemma run_preserves env (P : World -> Prop) :
  (forall ev w w', reachable env w -> P w -> step env ev w = Some w' -> P w') ->
  forall evs w w', reachable env w -> P w -> run env evs w = Some w' -> P w'.
Proof.
  intros Hstep evs. induction evs as [| ev evs IH]; intros w w' Hr Hp Hrun;
    simpl in Hrun.
  - injection Hrun as <-. exact Hp.
  - destruct (step env ev w) as [w1 |] eqn:H1; [| discriminate Hrun].
    apply (IH w1 w'); [eapply reachable_step; eassumption
                      | eapply Hstep; eassumption | exact Hrun].
Qed.

(** X6. While [handleChange] is registered on the permission status, the
    permission the component holds and shows is the page's current one:
    each change of the page's permission is taken over at once. A listener
    is only ever registered while the component is in the tree. *)
Theorem shown_permission_follows_page env w :
  reachable env w ->
  change_listener (host w) = true ->
  in_tree (host w) = true /\
  permissionState (component w) = Some (permission (host w)) /\
  permission_line (render (component w)) =
    PermissionState_text (permission (host w)) /\
  (forall p w',
      step env (PermissionChange p) w = Some w' ->
      permissionState (component w') = Some p /\
      permission_line (render (component w')) = PermissionState_text p).
Proof.
  intros Hr Hl.
  destruct (perm_listening _ _ (reachable_permission _ _ Hr) Hl)
    as (_ & Htree & Hps).
  split; [exact Htree |]. split; [exact Hps |].
  split; [unfold render; simpl; rewrite Hps; reflexivity |].
  intros p w' Hstep.
  pose proof (reachable_step _ _ _ _ Hr Hstep) as Hr'.
  assert (Hl' : change_listener (host w') = true /\ permission (host w') = p).
  { simpl in Hstep. injection Hstep as <-. rewrite Hl.
    unfold handleChange, exec, bind, read, read_host. simpl.
    destruct (effect (component w)) as [e |]; simpl;
      [destruct (negb (mounted e) || negb (permStatus e)); simpl |];
      split; first [exact Hl | reflexivity]. }
  destruct Hl' as [Hl' Hp].
  destruct (perm_listening _ _ (reachable_permission _ _ Hr') Hl')
    as (_ & _ & Hps').
  rewrite Hp in Hps'. split; [exact Hps' |].
  unfold render; simpl; rewrite Hps'; reflexivity.
Qed.

Lemma shown_permission_follows_page_witness :
  exists w w',
    run browser [QueryFulfilled] (mount browser prompt) = Some w /\
    reachable browser w /\
    change_listener (host w) = true /\
    permissionState (component w) = Some prompt /\
    step browser (PermissionChange denied) w = Some w' /\
    permissionState (component w') = Some denied.
Proof.
  eexists. eexists.
  split; [vm_compute; reflexivity |].
  match goal with |- reachable browser ?x /\ _ =>
    assert (Hr : reachable browser x)
      by (exists prompt, [QueryFulfilled]; vm_compute; reflexivity);
    assert (Hl : change_listener (host x) = true) by reflexivity;
    destruct (shown_permission_follows_page browser x Hr Hl)
      as (_ & Hps & _ & Hchange)
  end.
  split; [exact Hr |]. split; [exact Hl |]. split; [exact Hps |].
  split; [vm_compute; reflexivity |].
  eapply Hchange. vm_compute. reflexivity.
Defined.

Lemma off_tree_step env ev w w' :
  reachable env w -> in_tree (host w) = false ->
  step env ev w = Some w' ->
  in_tree (host w') = false /\
  permissionState (component w') = permissionState (component w) /\
  watching (component w') = watching (component w) /\
  watchIdRef (component w') = watchIdRef (component w) /\
  window_open_calls (host w') = window_open_calls (host w) /\
  writeText_calls (host w') = writeText_calls (host w) /\
  requests (host w') `sublist_of` requests (host w) /\
  dom (watches (host w')) ⊆ dom (watches (host w)).
Proof.
  intros Hr Htree Hstep.
  pose proof (reachable_permission _ _ Hr) as Hperm.
  assert (Hl : change_listener (host w) = false).
  { destruct (change_listener (host w)) eqn:Hl; [| reflexivity].
    destruct (perm_listening _ _ Hperm Hl) as (_ & Hx & _). congruence. }
  destruct ev; simpl in Hstep; try rewrite Htree in Hstep;
    try rewrite Hl in Hstep; simpl in Hstep;
    try discriminate Hstep; open_guard Hstep; simpl;
    try (repeat split; first [assumption | reflexivity]; fail).
  - repeat split; try assumption; try reflexivity.
    apply sublist_cons. reflexivity.
  - repeat split; try assumption; try reflexivity.
    apply sublist_cons. reflexivity.
  - destruct ended; simpl; repeat split; try assumption; try reflexivity.
    rewrite dom_delete_L. apply subseteq_difference_l. reflexivity.
  - unfold query_then, exec, bind, read. simpl.
    destruct (effect (component w)) as [e |] eqn:He; simpl;
      [| repeat split; first [assumption | reflexivity]].
    rewrite (perm_mounted _ _ Hperm _ He), Htree. simpl.
    repeat split; first [assumption | reflexivity].
Qed.

(** X7. Unmounting unsubscribes from the permission status, and a
    torn-down component starts nothing new. Whatever arrives later (the
    answer to the permission query, a permission change, a location
    callback, a clipboard settlement), the listener is not registered
    again, [permissionState], [watching] and the handle are not written,
    no window is opened, no [writeText] call is made, and no request or
    subscription is added to those already running. *)
Theorem torn_down_component_is_passive env w evs w' :
  reachable env w ->
  in_tree (host w) = false ->
  run env evs w = Some w' ->
  change_listener (host w) = false /\
  change_listener (host w') = false /\
  in_tree (host w') = false /\
  permissionState (component w') = permissionState (component w) /\
  watching (component w') = watching (component w) /\
  watchIdRef (component w') = watchIdRef (component w) /\
  window_open_calls (host w') = window_open_calls (host w) /\
  writeText_calls (host w') = writeText_calls (host w) /\
  requests (host w') `sublist_of` requests (host w) /\
  dom (watches (host w')) ⊆ dom (watches (host w)).
Proof.
  intros Hr Htree Hrun.
  assert (Hoff : forall x, reachable env x -> in_tree (host x) = false ->
                 change_listener (host x) = false).
  { intros x Hx Ht. destruct (change_listener (host x)) eqn:Hl; [| reflexivity].
    destruct (perm_listening _ _ (reachable_permission _ _ Hx) Hl) as (_ & Hy & _).
    congruence. }
  split; [exact (Hoff w Hr Htree) |].
  assert (Hkeep :
    in_tree (host w') = false /\
    permissionState (component w') = permissionState (component w) /\
    watching (component w') = watching (component w) /\
    watchIdRef (component w') = watchIdRef (component w) /\
    window_open_calls (host w') = window_open_calls (host w) /\
    writeText_calls (host w') = writeText_calls (host w) /\
    requests (host w') `sublist_of` requests (host w) /\
    dom (watches (host w')) ⊆ dom (watches (host w))).
  { revert Hrun.
    apply (run_preserves env (fun x =>
      in_tree (host x) = false /\
      permissionState (component x) = permissionState (component w) /\
      watching (component x) = watching (component w) /\
      watchIdRef (component x) = watchIdRef (component w) /\
      window_open_calls (host x) = window_open_calls (host w) /\
      writeText_calls (host x) = writeText_calls (host w) /\
      requests (host x) `sublist_of` requests (host w) /\
      dom (watches (host x)) ⊆ dom (watches (host w)))).
    - intros ev x x' Hx (Ht & H1 & H2 & H3 & H4 & H5 & H6 & H7) Hs.
      destruct (off_tree_step _ _ _ _ Hx Ht Hs)
        as (Ht' & G1 & G2 & G3 & G4 & G5 & G6 & G7).
      split; [exact Ht' |]. split; [congruence |]. split; [congruence |].
      split; [congruence |]. split; [congruence |]. split; [congruence |].
      split; [etransitivity; eassumption | etransitivity; eassumption].
    - exact Hr.
    - repeat split; try assumption; reflexivity. }
  split; [| exact Hkeep].
  apply Hoff; [eapply run_reachable; eassumption | exact (proj1 Hkeep)].
Qed.

Lemma torn_down_component_is_passive_witness :
  reachable browser (after [QueryFulfilled; Click OnStartWatching; Unmount]) /\
  in_tree (host (after [QueryFulfilled; Click OnStartWatching; Unmount]))
    = false /\
  run browser [PermissionChange denied; WatchUpdate 1 san_francisco]
    (after [QueryFulfilled; Click OnStartWatching; Unmount])
    = Some (after [QueryFulfilled; Click OnStartWatching; Unmount;
                   PermissionChange denied; WatchUpdate 1 san_francisco]) /\
  change_listener
    (host (after [QueryFulfilled; Click OnStartWatching; Unmount;
                  PermissionChange denied; WatchUpdate 1 san_francisco]))
    = false /\
  permissionState
    (component (after [QueryFulfilled; Click OnStartWatching; Unmount;
                       PermissionChange denied; WatchUpdate 1 san_francisco]))
    = Some prompt.
Proof.
  assert (Hr : reachable browser
                 (after [QueryFulfilled; Click OnStartWatching; Unmount]))
    by (exists prompt, [QueryFulfilled; Click OnStartWatching; Unmount];
        vm_compute; reflexivity).
  assert (Ht : in_tree (host (after [QueryFulfilled; Click OnStartWatching;
                                     Unmount])) = false)
    by reflexivity.
  assert (Hrun :
    run browser [PermissionChange denied; WatchUpdate 1 san_francisco]
      (after [QueryFulfilled; Click OnStartWatching; Unmount])
    = Some (after [QueryFulfilled; Click OnStartWatching; Unmount;
                   PermissionChange denied; WatchUpdate 1 san_francisco]))
    by (vm_compute; reflexivity).
  destruct (torn_down_component_is_passive browser _ _ _ Hr Ht Hrun)
    as (_ & Hl & _ & Hps & _).
  split; [exact Hr |]. split; [exact Ht |]. split; [exact Hrun |].
  split; [exact Hl |]. rewrite Hps. reflexivity.
Defined.

(** X8. Where the page has no Permissions API (or there is no window) the
    effect does nothing: no query is made, nothing listens, and the
    permission stays unknown, shown as "(unknown)", whatever happens. *)
Theorem no_permissions_api_stays_unknown env w :
  negb (window_defined env) || negb (navigator_permissions env) = true ->
  reachable env w ->
  effect (component w) = None /\
  permissionState (component w) = None /\
  query_pending (host w) = false /\
  change_listener (host w) = false /\
  permission_line (render (component w)) = "(unknown)".
Proof.
  intros Hapi Hr. pose proof (reachable_permission _ _ Hr) as Hperm.
  pose proof (perm_no_api _ _ Hperm Hapi) as He.
  destruct (perm_no_effect _ _ Hperm He) as (Hps & Hq & Hl).
  split; [exact He |]. split; [exact Hps |]. split; [exact Hq |].
  split; [exact Hl |]. unfold render; simpl; rewrite Hps; reflexivity.
Qed.

Lemma no_permissions_api_stays_unknown_witness :
  negb (window_defined bare_browser) || negb (navigator_permissions bare_browser)
    = true /\
  exists w,
    run bare_browser [PermissionChange granted; Click OnStartWatching]
      (mount bare_browser prompt) = Some w /\
    permissionState (component w) = None /\
    permission_line (render (component w)) = "(unknown)".
Proof.
  assert (Hapi : negb (window_defined bare_browser)
                 || negb (navigator_permissions bare_browser) = true)
    by reflexivity.
  split; [exact Hapi |].
  eexists. split; [vm_compute; reflexivity |].
  match goal with |- permissionState (component ?x) = None /\ _ =>
    assert (Hr : reachable bare_browser x)
      by (exists prompt, [PermissionChange granted; Click OnStartWatching];
          vm_compute; reflexivity);
    destruct (no_permissions_api_stays_unknown bare_browser x Hapi Hr)
      as (_ & Hps & _ & _ & Hline)
  end.
  split; [exact Hps | exact Hline].
Defined.

Lemma unknown_step env ev w w' :
  permission_unknown w -> step env ev w = Some w' -> permission_unknown w'.
Proof.
  intros (Hps & Hq & Hl) Hstep.
  destruct ev; simpl in Hstep; try rewrite Hq in Hstep; try rewrite Hl in Hstep;
    try discriminate Hstep; open_guard Hstep;
    try destruct h; try destruct ended; handlers; branches;
    repeat split; assumption.
Qed.

(** X9. A permission query that fails is swallowed: the permission stays
    unknown for good. No later event makes the component learn it, since
    the change listener is only registered when the query succeeds; the
    view keeps showing "(unknown)" and no error is set by the failure. *)
Theorem rejected_query_stays_unknown env w w1 evs w2 :
  reachable env w ->
  step env QueryRejected w = Some w1 ->
  run env evs w1 = Some w2 ->
  error (component w1) = error (component w) /\
  permissionState (component w2) = None /\
  change_listener (host w2) = false /\
  permission_line (render (component w2)) = "(unknown)".
Proof.
  intros Hr Hstep Hrun.
  pose proof (reachable_permission _ _ Hr) as Hperm.
  assert (Hunknown : permission_unknown w1 /\
                     error (component w1) = error (component w)).
  { simpl in Hstep.
    destruct (query_pending (host w)) eqn:Hq; [| discriminate Hstep].
    injection Hstep as <-.
    destruct (effect (component w)) as [e |] eqn:He.
    - pose proof (perm_pending _ _ Hperm _ He Hq) as Hst.
      destruct (perm_not_yet _ _ Hperm _ He Hst) as (Hps & Hl).
      repeat split; assumption.
    - destruct (perm_no_effect _ _ Hperm He) as (_ & Hx & _). congruence. }
  destruct Hunknown as [Hunknown Herr]. split; [exact Herr |].
  assert (Hend : permission_unknown w2).
  { revert Hrun. apply (run_preserves env permission_unknown).
    - intros ev x x' _. apply unknown_step.
    - eapply reachable_step; eassumption.
    - exact Hunknown. }
  destruct Hend as (Hps & _ & Hl).
  split; [exact Hps |]. split; [exact Hl |].
  unfold render; simpl; rewrite Hps; reflexivity.
Qed.

Lemma rejected_query_stays_unknown_witness :
  exists w1 w2,
    reachable browser (mount browser prompt) /\
    step browser QueryRejected (mount browser prompt) = Some w1 /\
    run browser [PermissionChange granted; Click OnGetOneShot] w1 = Some w2 /\
    permissionState (component w2) = None.
Proof.
  assert (Hr : reachable browser (mount browser prompt))
    by (exists prompt, []; reflexivity).
  eexists. eexists. split; [exact Hr |].
  split; [vm_compute; reflexivity |].
  split; [vm_compute; reflexivity |].
  match goal with |- permissionState (component ?y) = None =>
    eapply (rejected_query_stays_unknown browser (mount browser prompt) _
              [PermissionChange granted; Click OnGetOneShot] y Hr)
  end; vm_compute; reflexivity.
Defined.

Lemma missing_false_available env :
  geolocation_missing env = false ->
  window_defined env && navigator_geolocation env = true.
Proof.
  intros Hg. rewrite geolocation_missing_negb in Hg.
  apply negb_false_iff in Hg. exact Hg.
Qed.


(** X10. A step writes a piece of state only where the source has a setter
    for it. The position changes only with a successful location callback;
    [watching] and the handle only with a click on Start or Stop; the
    permission only with the answer to the permission query or a
    permission change. In particular a permission change, even a denial,
    neither stops a running session nor clears a held position. *)
Theorem state_is_written_only_by_its_events env ev w w' :
  step env ev w = Some w' ->
  (position (component w') <> position (component w) ->
   exists pos, ev = CurrentPosition pos \/ exists id, ev = WatchUpdate id pos) /\
  (watching (component w') <> watching (component w) ->
   ev = Click OnStartWatching \/ ev = Click OnStopWatching) /\
  (watchIdRef (component w') <> watchIdRef (component w) ->
   ev = Click OnStartWatching \/ ev = Click OnStopWatching) /\
  (permissionState (component w') <> permissionState (component w) ->
   ev = QueryFulfilled \/ exists p, ev = PermissionChange p).
Proof.
  intros Hstep.
  destruct ev; simpl in Hstep; open_guard Hstep;
    try destruct h; try destruct ended; handlers; branches;
    (split; [| split; [| split]]); intros Hne;
    try (exfalso; apply Hne; reflexivity);
    try (simpl in Hne; congruence); eauto.
Qed.

Lemma state_is_written_only_by_its_events_witness :
  step browser (PermissionChange denied) holding
    = Some (exec (on_host (set_permissions denied true false)) holding) /\
  position (component (exec (on_host (set_permissions denied true false)) holding))
    = position (component holding) /\
  watching (component (exec (on_host (set_permissions denied true false)) holding))
    = true.
Proof.
  assert (Hs : step browser (PermissionChange denied) holding
               = Some (exec (on_host (set_permissions denied true false)) holding))
    by reflexivity.
  destruct (state_is_written_only_by_its_events browser _ _ _ Hs)
    as (Hpos & Hw & _).
  split; [exact Hs |]. split; reflexivity.
Defined.

(** X11. Starting and at once stopping a session, from an idle reachable
    state on a page with geolocation, restores everything except two
    things: a shown error is cleared (by Start), and the browser has used
    up one watch id. No subscription, handle or flag is left behind. *)
Theorem start_then_stop_round_trip env w :
  reachable env w ->
  geolocation_missing env = false ->
  watching (component w) = false ->
  component (exec (stopWatching env) (exec (startWatching env) w)) =
    component (exec (setError None) w) /\
  host (exec (stopWatching env) (exec (startWatching env) w)) =
    set_next_watch_id (next_watch_id (host w) + 1) (host w).
Proof.
  intros Hr Hg Hw. pose proof (reachable_invariant _ _ Hr) as Hinv.
  pose proof (inv_idle _ _ Hinv Hw) as Href.
  pose proof (no_handle_no_watches _ (inv_session _ _ Hinv) Href) as Hnow.
  pose proof (missing_false_available _ Hg) as Hav.
  destruct w as [c h]. destruct c as [p e l wa ps r ef], h. simpl in *. subst.
  unfold stopWatching, startWatching, exec, bind, read. rewrite Hg. simpl.
  rewrite Hav. simpl. split; [reflexivity |].
  unfold set_watches, set_next_watch_id. simpl.
  rewrite delete_insert_id by apply lookup_empty. reflexivity.
Qed.

Lemma start_then_stop_round_trip_witness :
  reachable browser (mount browser prompt) /\
  geolocation_missing browser = false /\
  watching (component (mount browser prompt)) = false /\
  component (exec (stopWatching browser) tracking)
    = component (mount browser prompt) /\
  watches (host (exec (stopWatching browser) tracking)) = ∅.
Proof.
  assert (Hr : reachable browser (mount browser prompt))
    by (exists prompt, []; reflexivity).
  assert (Hg : geolocation_missing browser = false) by reflexivity.
  assert (Hw : watching (component (mount browser prompt)) = false)
    by reflexivity.
  destruct (start_then_stop_round_trip browser _ Hr Hg Hw) as [Hc Hh].
  split; [exact Hr |]. split; [exact Hg |]. split; [exact Hw |].
  split; [exact Hc |]. unfold tracking. rewrite Hh. reflexivity.
Defined.





Lemma step_console env ev w w' :
  step env ev w = Some w' ->
  console_errors (host w') = (console_errors (host w) ++ failure_of ev)%list.
Proof.
  intros Hstep.
  destruct ev; simpl in Hstep; open_guard Hstep;
    try destruct h; try destruct ended; handlers; branches; simpl;
    rewrite ?app_nil_r; reflexivity.
Qed.

(** X14. The console receives exactly the failures the location callbacks
    deliver, one [console.error] each and in their order; nothing else the
    component does logs an error (not the "not supported" message, not a
    failed permission query, not a rejected clipboard write). *)
Theorem console_logs_exactly_failures env evs w w' :
  run env evs w = Some w' ->
  console_errors (host w') =
    (console_errors (host w) ++ flat_map failure_of evs)%list.
Proof.
  revert w. induction evs as [| ev evs IH]; intros w Hrun; simpl in Hrun.
  - injection Hrun as <-. simpl. rewrite app_nil_r. reflexivity.
  - destruct (step env ev w) as [w1 |] eqn:Hstep; [| discriminate Hrun].
    rewrite (IH _ Hrun), (step_console _ _ _ _ Hstep). simpl.
    rewrite app_assoc. reflexivity.
Qed.

Lemma console_logs_exactly_failures_witness :
  run browser
    [Click OnStartWatching; WatchError 1 position_unavailable false;
     QueryRejected; Click OnGetOneShot; CurrentPositionError permission_denied]
    (mount browser prompt)
  = Some (after [Click OnStartWatching; WatchError 1 position_unavailable false;
                 QueryRejected; Click OnGetOneShot;
                 CurrentPositionError permission_denied]) /\
  console_errors
    (host (after [Click OnStartWatching; WatchError 1 position_unavailable false;
                  QueryRejected; Click OnGetOneShot;
                  CurrentPositionError permission_denied]))
  = [position_unavailable; permission_denied].
Proof.
  assert (Hrun :
    run browser
      [Click OnStartWatching; WatchError 1 position_unavailable false;
       QueryRejected; Click OnGetOneShot; CurrentPositionError permission_denied]
      (mount browser prompt)
    = Some (after [Click OnStartWatching; WatchError 1 position_unavailable false;
                   QueryRejected; Click OnGetOneShot;
                   CurrentPositionError permission_denied]))
    by (vm_compute; reflexivity).
  split; [exact Hrun |].
  rewrite (console_logs_exactly_failures _ _ _ _ Hrun). reflexivity.
Defined.

(** X15. Every window the component ever opens is a Google Maps link for
    some position, opened in a new browsing context ("_blank") with
    "noopener,noreferrer". *)
Theorem opened_windows_are_maps_links env w :
  reachable env w ->
  Forall (fun call =>
            exists p : PositionState,
              call.1.1 = "https://www.google.com/maps?q="
                           ++ toString (latitude p) ++ ","
                           ++ toString (longitude p) /\
              call.1.2 = "_blank" /\
              call.2 = "noopener,noreferrer")
         (window_open_calls (host w)).
Proof.
  intros Hr. pose proof (out_windows _ (reachable_output _ _ Hr)) as Hw.
  eapply Forall_impl; [exact Hw |].
  intros call (p & ->). exists p. repeat split.
Qed.

Lemma opened_windows_are_maps_links_witness :
  reachable browser (exec (openInMaps browser) holding) /\
  window_open_calls (host (exec (openInMaps browser) holding)) <> [] /\
  Forall (fun call => call.1.2 = "_blank" /\ call.2 = "noopener,noreferrer")
    (window_open_calls (host (exec (openInMaps browser) holding))).
Proof.
  assert (Hr : reachable browser (exec (openInMaps browser) holding))
    by (exists prompt, [Click OnStartWatching; WatchUpdate 1 san_francisco;
                        Click OnOpenInMaps]; vm_compute; reflexivity).
  split; [exact Hr |]. split; [discriminate |].
  eapply Forall_impl; [exact (opened_windows_are_maps_links browser _ Hr) |].
  intros call (p & _ & Ht & Hf). split; assumption.
Defined.

Lemma no_clipboard_no_write env w :
  reachable env w -> navigator_clipboard env = false ->
  writeText_calls (host w) = [].
Proof.
  intros Hr Hc. revert w Hr.
  apply (reachable_induction env (fun w => writeText_calls (host w) = [])).
  - intros p. unfold mount, permissions_effect.
    destruct (negb (window_defined env) || negb (navigator_permissions env));
      reflexivity.
  - intros ev w w' _ Hw Hstep.
    destruct ev; simpl in Hstep; open_guard Hstep;
      try destruct h; try destruct ended; handlers; try rewrite Hc;
      branches; simpl; assumption.
Qed.

(** X16. Where [navigator.clipboard] is missing, Copy coords copies
    nothing at all: the optional call is skipped together with its
    [catch], so the textarea fallback, which only a rejected [writeText]
    reaches, never runs. In general a fallback copy happens at most once
    per [writeText] call. *)
Theorem fallback_only_after_rejected_write env w :
  reachable env w ->
  (length (execCommand_copies (host w)) + length (writeText_pending (host w))
   <= length (writeText_calls (host w)))%nat /\
  (navigator_clipboard env = false ->
   writeText_calls (host w) = [] /\
   execCommand_copies (host w) = [] /\
   (forall w', step env (Click OnCopyToClipboard) w = Some w' -> w' = w)).
Proof.
  intros Hr. pose proof (out_clipboard _ (reachable_output _ _ Hr)) as Hlen.
  split; [exact Hlen |]. intros Hc.
  pose proof (no_clipboard_no_write _ _ Hr Hc) as Hcalls.
  rewrite Hcalls in Hlen. simpl in Hlen.
  split; [exact Hcalls |].
  split; [destruct (execCommand_copies (host w)); [reflexivity | simpl in Hlen; lia] |].
  intros w' Hstep. apply step_click in Hstep as (_ & _ & ->).
  simpl. unfold copyToClipboard, exec, bind, read. simpl. rewrite Hc.
  destruct (position (component w)); simpl;
    [destruct (negb (window_defined env)) |]; reflexivity.
Qed.

Lemma fallback_only_after_rejected_write_witness :
  navigator_clipboard bare_browser = false /\
  reachable bare_browser
    (exec (handleSuccess san_francisco)
       (exec (startWatching bare_browser) (mount bare_browser prompt))) /\
  step bare_browser (Click OnCopyToClipboard)
    (exec (handleSuccess san_francisco)
       (exec (startWatching bare_browser) (mount bare_browser prompt)))
  = Some (exec (handleSuccess san_francisco)
            (exec (startWatching bare_browser) (mount bare_browser prompt))).
Proof.
  assert (Hc : navigator_clipboard bare_browser = false) by reflexivity.
  assert (Hr : reachable bare_browser
                 (exec (handleSuccess san_francisco)
                    (exec (startWatching bare_browser) (mount bare_browser prompt))))
    by (exists prompt, [Click OnStartWatching; WatchUpdate 1 san_francisco];
        reflexivity).
  destruct (fallback_only_after_rejected_write bare_browser _ Hr)
    as (_ & Hnone).
  destruct (Hnone Hc) as (_ & _ & Hsame).
  split; [exact Hc |]. split; [exact Hr |].
  destruct (step bare_browser (Click OnCopyToClipboard)
              (exec (handleSuccess san_francisco)
                 (exec (startWatching bare_browser) (mount bare_browser prompt))))
    as [w' |] eqn:Hstep.
  - rewrite (Hsame w' eq_refl). reflexivity.
  - vm_compute in Hstep. discriminate Hstep.
Defined.

(** X17. After a failing location callback the view shows
    "Error: <text>" with the stored text, and the one-shot button is back
    to "Get current position", enabled. The line is drawn only for a
    non-empty text: a failure with no message whose string form is empty
    too leaves an empty error that the view does not show. *)
Theorem failure_is_shown err w :
  clickable OnGetOneShot (render (component (exec (handleError err) w))) = true /\
  head (buttons (render (component (exec (handleError err) w)))) =
    Some {| label := "Get current position"; onClick := OnGetOneShot;
            disabled := false |} /\
  (forall m, err_message err = Some m -> m <> "" ->
     error_line (render (component (exec (handleError err) w))) =
       Some ("Error: " ++ m)) /\
  (err_message err = None \/ err_message err = Some "" ->
   err_string err <> "" ->
   error_line (render (component (exec (handleError err) w))) =
     Some ("Error: " ++ err_string err)) /\
  (err_message err = None \/ err_message err = Some "" ->
   err_string err = "" ->
   error (component (exec (handleError err) w)) = Some "" /\
   error_line (render (component (exec (handleError err) w))) = None).
Proof.
  split; [reflexivity |]. split; [reflexivity |].
  unfold render. simpl.
  split; [| split].
  - intros m Hm Hne. rewrite Hm. destruct m; [contradiction | reflexivity].
  - intros [Hm | Hm] Hne; rewrite Hm; simpl;
      (destruct (err_string err); [contradiction | reflexivity]).
  - intros [Hm | Hm] Hs; rewrite Hm; simpl; rewrite Hs; split; reflexivity.
Qed.

Lemma failure_is_shown_witness :
  err_message permission_denied = Some "User denied Geolocation" /\
  error_line (render (component (exec (handleError permission_denied) requesting)))
    = Some "Error: User denied Geolocation" /\
  err_message position_unavailable = Some "" /\
  err_string position_unavailable <> "" /\
  error_line (render (component (exec (handleError position_unavailable) requesting)))
    = Some "Error: [object GeolocationPositionError]" /\
  error_line (render (component
    (exec (handleError {| err_code := 3; err_message := None; err_string := "" |})
       requesting))) = None.
Proof.
  destruct (failure_is_shown permission_denied requesting)
    as (_ & _ & Hmsg & _).
  destruct (failure_is_shown position_unavailable requesting)
    as (_ & _ & _ & Hstr & _).
  destruct (failure_is_shown
              {| err_code := 3; err_message := None; err_string := "" |}
              requesting) as (_ & _ & _ & _ & Hnone).
  split; [reflexivity |].
  split; [apply Hmsg; [reflexivity | discriminate] |].
  split; [reflexivity |]. split; [discriminate |].
  split; [apply Hstr; [right; reflexivity | discriminate] |].
  apply Hnone; [left |]; reflexivity.
Defined.

(** X18. After a successful location callback the view hides the error
    line, enables Copy coords and Open in Maps, re-enables the one-shot
    button, and draws the panel from the reading: latitude, longitude and
    accuracy (followed by " meters") as the numbers print, then altitude,
    heading and speed where the reading has them, then the timestamp as a
    date. *)
Theorem success_is_shown pos w :
  error_line (render (component (exec (handleSuccess pos) w))) = None /\
  clickable OnGetOneShot (render (component (exec (handleSuccess pos) w))) = true /\
  clickable OnCopyToClipboard (render (component (exec (handleSuccess pos) w)))
    = true /\
  clickable OnOpenInMaps (render (component (exec (handleSuccess pos) w)))
    = true /\
  panel (render (component (exec (handleSuccess pos) w))) =
    Some
      ([ {| caption := "Latitude: ";
            value := Str (toString (coords_latitude (coords pos))) |};
         {| caption := "Longitude: ";
            value := Str (toString (coords_longitude (coords pos))) |};
         {| caption := "Accuracy: ";
            value := Str (toString (coords_accuracy (coords pos)) ++ " meters") |} ]
       ++ optional_row "Altitude: " (coords_altitude (coords pos))
       ++ optional_row "Heading: " (coords_heading (coords pos))
       ++ optional_row "Speed: " (coords_speed (coords pos))
       ++ [ {| caption := "Timestamp: ";
               value := LocaleDate (pos_timestamp pos) |} ])%list.
Proof.
  rewrite handleSuccess_component.
  destruct (clickable_spec
    {| position := Some
         {| latitude := coords_latitude (coords pos);
            longitude := coords_longitude (coords pos);
            accuracy := coords_accuracy (coords pos);
            altitude := coords_altitude (coords pos);
            altitudeAccuracy := coords_altitudeAccuracy (coords pos);
            heading := coords_heading (coords pos);
            speed := coords_speed (coords pos);
            timestamp := pos_timestamp pos |};
       error := None; loading := false;
       watching := watching (component w);
       permissionState := permissionState (component w);
       watchIdRef := watchIdRef (component w);
       effect := effect (component w) |}) as (H1 & _ & _ & H4 & H5).
  rewrite H1, H4, H5. repeat split.
Qed.

(** X19. The position panel has between four and seven rows: latitude,
    longitude, accuracy and timestamp always, altitude, heading and speed
    only when they are not null. The altitude accuracy is never shown: the
    panel is the same whatever that field holds. *)
Theorem panel_rows_shape p :
  length (position_rows p) =
    (4 + length (option_list (altitude p)) + length (option_list (heading p))
       + length (option_list (speed p)))%nat /\
  (4 <= length (position_rows p) <= 7)%nat /\
  map caption (position_rows p) =
    (["Latitude: "; "Longitude: "; "Accuracy: "]
     ++ match altitude p with Some _ => ["Altitude: "] | None => [] end
     ++ match heading p with Some _ => ["Heading: "] | None => [] end
     ++ match speed p with Some _ => ["Speed: "] | None => [] end
     ++ ["Timestamp: "])%list /\
  (forall a,
      position_rows
        {| latitude := latitude p; longitude := longitude p;
           accuracy := accuracy p; altitude := altitude p;
           altitudeAccuracy := a; heading := heading p; speed := speed p;
           timestamp := timestamp p |} = position_rows p).
Proof.
  destruct p as [la lo ac al aa he sp ts]. unfold position_rows. simpl.
  destruct al, he, sp; simpl; repeat split; lia.
Qed.

(** X20. Through the view Copy coords and Open in Maps are never no-ops
    for want of a position: a click is only possible with a position held
    (and so with a window). Open in Maps then opens exactly one window with
    the link for the held position; Copy coords makes exactly one
    [writeText] call with the coordinate text when the page has a
    clipboard. Neither changes the component. *)
Theorem copy_and_open_clicks_act env w w' :
  reachable env w ->
  (step env (Click OnOpenInMaps) w = Some w' ->
   exists p,
     position (component w) = Some p /\
     component w' = component w /\
     window_open_calls (host w') =
       (window_open_calls (host w)
          ++ [(maps_url p, "_blank", "noopener,noreferrer")])%list /\
     writeText_calls (host w') = writeText_calls (host w)) /\
  (step env (Click OnCopyToClipboard) w = Some w' ->
   exists p,
     position (component w) = Some p /\
     component w' = component w /\
     window_open_calls (host w') = window_open_calls (host w) /\
     writeText_calls (host w') =
       (writeText_calls (host w)
          ++ (if navigator_clipboard env then [clipboard_text p] else []))%list).
Proof.
  intros Hr.
  assert (Hpos : forall a, a = OnOpenInMaps \/ a = OnCopyToClipboard ->
                 clickable a (render (component w)) = true ->
                 exists p, position (component w) = Some p /\
                           window_defined env = true).
  { intros a Ha Hc.
    assert (Hp : position (component w) <> None).
    { apply clickable_needs_position. destruct Ha as [-> | ->]; auto. }
    destruct (held_position_needs_window _ _ Hr Hp) as [Hw _].
    destruct (position (component w)) as [p |]; [| contradiction].
    exists p. split; [reflexivity | exact Hw]. }
  split; intros Hstep; apply step_click in Hstep as (_ & Hc & ->).
  - destruct (Hpos _ (or_introl eq_refl) Hc) as (p & Hp & Hw).
    exists p. split; [exact Hp |].
    simpl. unfold openInMaps, exec, bind, read. simpl. rewrite Hp, Hw. simpl.
    repeat split.
  - destruct (Hpos _ (or_intror eq_refl) Hc) as (p & Hp & Hw).
    exists p. split; [exact Hp |].
    simpl. unfold copyToClipboard, exec, bind, read. simpl. rewrite Hp, Hw. simpl.
    destruct (navigator_clipboard env); simpl; repeat split.
    symmetry. apply app_nil_r.
Qed.

Lemma copy_and_open_clicks_act_witness :
  reachable browser holding /\
  step browser (Click OnOpenInMaps) holding
    = Some (exec (openInMaps browser) holding) /\
  length (window_open_calls (host (exec (openInMaps browser) holding))) = 1%nat /\
  step browser (Click OnOpenInMaps) tracking = None.
Proof.
  assert (Hr : reachable browser holding)
    by (exists prompt, [Click OnStartWatching; WatchUpdate 1 san_francisco];
        reflexivity).
  assert (Hs : step browser (Click OnOpenInMaps) holding
               = Some (exec (openInMaps browser) holding)) by reflexivity.
  destruct (copy_and_open_clicks_act browser holding
              (exec (openInMaps browser) holding) Hr) as [Hopen _].
  destruct (Hopen Hs) as (p & _ & _ & Hcalls & _).
  split; [exact Hr |]. split; [exact Hs |].
  split; [rewrite Hcalls; reflexivity | reflexivity].
Defined.
